(** * The bytecode machine of emulator.cpp, its assembler and its Micro-C compiler

    A shallow embedding of [src/emulator.cpp]: the [CPU] class
    ([loadProgram], [syscallHandler], [step]), the two-pass [assemble] and
    the line-oriented [compile], followed by the properties of the
    specification that were checked against them.

    Conventions.  A [uint8_t] is a [Z] in [0, 256) and a [uint16_t] a [Z] in
    [0, 65536); every place where the C++ converts back to the narrow type is
    written out with [wrap8] or [wrap16].  A [std::vector<uint8_t>] is a
    [list Z]; indexing it outside its size is undefined behaviour in C++ and
    yields [None] here.  Console output is a list of [event]s, console input a
    [World]. *)

From Stdlib Require Import ZArith Ascii String Lia.
From stdpp Require Import base numbers option list gmap strings.

Local Open Scope Z_scope.

(** ** Opcodes *)

Module Opcodes.

(** [enum OpCode : uint8_t]. *)
Inductive OpCode : Set :=
| PUSH_B | POP_B | LOAD_A | LOAD_B | STORE_A
| ADD_A_B | SUB_A_B
| JMP | HALT
| SYSCALL.

#[global] Instance OpCode_eq_dec : EqDecision OpCode.
Proof. solve_decision. Defined.

(** The numeric value of each enumerator. *)
Definition code (o : OpCode) : Z :=
  match o with
  | PUSH_B => 0x01 | POP_B => 0x02 | LOAD_A => 0x03 | LOAD_B => 0x04
  | STORE_A => 0x05
  | ADD_A_B => 0x10 | SUB_A_B => 0x11
  | JMP => 0x20 | HALT => 0xFF
  | SYSCALL => 0x30
  end.

(** Which [case] label of the [switch (instruction)] in [step] a byte
    selects; [None] is the [default] label. *)
Definition decode (b : Z) : option OpCode :=
  if b =? 0x03 then Some LOAD_A
  else if b =? 0x04 then Some LOAD_B
  else if b =? 0x05 then Some STORE_A
  else if b =? 0x10 then Some ADD_A_B
  else if b =? 0x11 then Some SUB_A_B
  else if b =? 0x01 then Some PUSH_B
  else if b =? 0x02 then Some POP_B
  else if b =? 0x20 then Some JMP
  else if b =? 0x30 then Some SYSCALL
  else if b =? 0xFF then Some HALT
  else None.

(** [const map<string, OpCode> opcodeMap]. *)
Definition opcodeMap : gmap string OpCode :=
  list_to_map
    [ ("PUSH_B", PUSH_B); ("POP_B", POP_B); ("LOAD_A", LOAD_A);
      ("LOAD_B", LOAD_B); ("STORE_A", STORE_A); ("ADD_A_B", ADD_A_B);
      ("SUB_A_B", SUB_A_B); ("JMP", JMP); ("HALT", HALT);
      ("SYSCALL", SYSCALL) ]%string.

Definition KERNEL_START_ADDRESS : Z := 0x1000.
Definition USER_PROGRAM_START_ADDRESS : Z := 0x0000.

(** [enum class SyscallNumber : uint8_t { PRINT_CHAR = 1, READ_CHAR = 2 }]. *)
Definition PRINT_CHAR : Z := 1.
Definition READ_CHAR : Z := 2.

End Opcodes.
Export Opcodes.

(** ** Fixed-width integers and vectors *)

Definition wrap8 (z : Z) : Z := z mod 256.
Definition wrap16 (z : Z) : Z := z mod 65536.
#[global] Arguments wrap8 : simpl never.
#[global] Arguments wrap16 : simpl never.

(** [v.size()]. *)
Definition vsize (v : list Z) : Z := Z.of_nat (length v).

(** [v[i]] as an rvalue, for an index of unsigned type (so never negative);
    [None] when [i] is not below the size of [v]. *)
Definition vget (v : list Z) (i : Z) : option Z := v !! Z.to_nat i.

(** [v[i] = x], for an index of unsigned type; [None] when [i] is not below
    the size of [v]. *)
Definition vset (v : list Z) (i : Z) (x : Z) : option (list Z) :=
  if decide (i < vsize v) then Some (<[Z.to_nat i := x]> v) else None.

(** [isspace] in the "C" locale: space, \t, \n, \v, \f, \r. *)
Definition isspace_code (c : Z) : bool :=
  (c =? 32) || ((9 <=? c) && (c <=? 13)).

(** ** The execution engine *)

Module Engine.

Definition MEMORY_SIZE : Z := 65536.
Definition STACK_SIZE : Z := 256.

(** [class CPU]: the data members, in declaration order. *)
Record CPU : Type := mkCPU {
  reg_A : Z;
  reg_B : Z;
  pc : Z;
  sp : Z;
  privileged : bool;
  memory : list Z;
  stack : list Z
}.

(** The constructor: all registers zero, [memory.resize(65536, 0)],
    [stack.resize(256, 0)]. *)
Definition CPU_new : CPU :=
  mkCPU 0 0 0 0 false
        (replicate (Z.to_nat MEMORY_SIZE) 0)
        (replicate (Z.to_nat STACK_SIZE) 0).

Definition set_A (v : Z) (s : CPU) : CPU :=
  mkCPU v (reg_B s) (pc s) (sp s) (privileged s) (memory s) (stack s).
Definition set_B (v : Z) (s : CPU) : CPU :=
  mkCPU (reg_A s) v (pc s) (sp s) (privileged s) (memory s) (stack s).
Definition set_pc (v : Z) (s : CPU) : CPU :=
  mkCPU (reg_A s) (reg_B s) v (sp s) (privileged s) (memory s) (stack s).
Definition set_sp (v : Z) (s : CPU) : CPU :=
  mkCPU (reg_A s) (reg_B s) (pc s) v (privileged s) (memory s) (stack s).
Definition set_privileged (v : bool) (s : CPU) : CPU :=
  mkCPU (reg_A s) (reg_B s) (pc s) (sp s) v (memory s) (stack s).
Definition set_memory (v : list Z) (s : CPU) : CPU :=
  mkCPU (reg_A s) (reg_B s) (pc s) (sp s) (privileged s) v (stack s).
Definition set_stack (v : list Z) (s : CPU) : CPU :=
  mkCPU (reg_A s) (reg_B s) (pc s) (sp s) (privileged s) (memory s) v.

(** What is written to [cout] and [cerr]. *)
Inductive event : Set :=
| TracePC (addr : Z)           (* "[PC: 0x" << hex << (pc - 1) << "] " *)
| TraceLoadA (v : Z)
| TraceLoadB (v : Z)
| TraceStoreA (addr : Z)
| TraceAdd (a : Z)
| TraceSub (a : Z)
| TracePush
| TracePop
| TraceJmp (addr : Z)
| TraceSyscall
| TraceHalt
| PrintChar (c : Z)            (* PRINT_CHAR: the character, then endl *)
| ErrProgramTooLarge (addr : Z)
| ErrPcOutOfBounds
| ErrUnknownInstruction (i : Z)
| ErrUnknownSyscall (n : Z).

(** The console input.  [cin] is the characters still to be read.
    [uninit] is the content of the local [char inputChar] of
    [syscallHandler] before [cin >> inputChar]: the extraction stores
    nothing when no character is left, and [reg_B] then receives that
    indeterminate byte. *)
Record World : Type := mkWorld {
  cin : list Z;
  uninit : Z
}.

(** [cin >> inputChar]: skip white space, take one character. *)
Fixpoint skipws (l : list Z) : list Z :=
  match l with
  | c :: l' => if isspace_code c then skipws l' else l
  | [] => []
  end.

Definition read_char (w : World) : Z * World :=
  match skipws (cin w) with
  | c :: l' => (c, mkWorld l' (uninit w))
  | [] => (uninit w, mkWorld [] (uninit w))
  end.

(** [void loadProgram(const vector<uint8_t>& program, uint16_t startAddress)]. *)
Definition loadProgram (program : list Z) (startAddress : Z) (s : CPU)
  : CPU * list event :=
  if decide (startAddress + vsize program > vsize (memory s)) then
    (s, [ErrProgramTooLarge startAddress])
  else
    (set_memory (list_inserts (Z.to_nat startAddress) program (memory s)) s, []).

(** The [switch (syscallNum)] of [syscallHandler], run between the two
    assignments to [privileged]. *)
Definition syscall_dispatch (s : CPU) (w : World) : CPU * World * list event :=
  if reg_A s =? PRINT_CHAR then (s, w, [PrintChar (reg_B s)])
  else if reg_A s =? READ_CHAR then
    let '(c, w') := read_char w in (set_B (wrap8 c) s, w', [])
  else (s, w, [ErrUnknownSyscall (reg_A s)]).

(** The machine at the three places of [syscallHandler] where it can be
    looked at: behind [privileged = true;], behind the [switch], and behind
    [privileged = false;], with the console input left and what was
    printed. *)
Record HandlerRun : Type := mkHandlerRun {
  on_entry : CPU;
  after_switch : CPU;
  on_return : CPU;
  input_left : World;
  printed : list event
}.

(** The body of [syscallHandler], statement by statement. *)
Definition syscallHandler_run (s : CPU) (w : World) : HandlerRun :=
  let s1 := set_privileged true s in                 (* privileged = true; *)
  let '(s2, w', out) := syscall_dispatch s1 w in     (* switch (syscallNum) *)
  let s3 := set_privileged false s2 in               (* privileged = false; *)
  mkHandlerRun s1 s2 s3 w' out.

(** [void syscallHandler()]: what the caller finds when it returns. *)
Definition syscallHandler (s : CPU) (w : World) : CPU * World * list event :=
  let h := syscallHandler_run s w in
  (on_return h, input_left h, printed h).

(** What one call of [step] leaves behind: its return value, the machine,
    the console input and what it printed. *)
Record Outcome : Type := mkOutcome {
  continue : bool;
  next : CPU;
  world : World;
  output : list event
}.

(** The body of [switch (instruction)]; [s] already has the incremented
    [pc].  [memory[pc++]] reads at the current [pc] and increments it. *)
Definition execute (instruction : Z) (s : CPU) (w : World) (out : list event)
  : option Outcome :=
  match decode instruction with
  | Some LOAD_A =>
      value ← vget (memory s) (pc s);
      let s := set_pc (wrap16 (pc s + 1)) s in
      Some (mkOutcome true (set_A value s) w (out ++ [TraceLoadA value]))
  | Some LOAD_B =>
      value ← vget (memory s) (pc s);
      let s := set_pc (wrap16 (pc s + 1)) s in
      Some (mkOutcome true (set_B value s) w (out ++ [TraceLoadB value]))
  | Some STORE_A =>
      address ← vget (memory s) (pc s);
      let s := set_pc (wrap16 (pc s + 1)) s in
      m ← vset (memory s) address (reg_A s);
      Some (mkOutcome true (set_memory m s) w (out ++ [TraceStoreA address]))
  | Some ADD_A_B =>
      let s := set_A (wrap8 (reg_A s + reg_B s)) s in
      Some (mkOutcome true s w (out ++ [TraceAdd (reg_A s)]))
  | Some SUB_A_B =>
      let s := set_A (wrap8 (reg_A s - reg_B s)) s in
      Some (mkOutcome true s w (out ++ [TraceSub (reg_A s)]))
  | Some PUSH_B =>
      if decide (sp s < vsize (stack s)) then
        st ← vset (stack s) (sp s) (reg_B s);
        let s := set_sp (wrap16 (sp s + 1)) (set_stack st s) in
        Some (mkOutcome true s w (out ++ [TracePush]))
      else Some (mkOutcome true s w out)
  | Some POP_B =>
      if decide (sp s > 0) then
        let s := set_sp (wrap16 (sp s - 1)) s in
        value ← vget (stack s) (sp s);
        Some (mkOutcome true (set_B value s) w (out ++ [TracePop]))
      else Some (mkOutcome true s w out)
  | Some JMP =>
      address ← vget (memory s) (pc s);
      let s := set_pc address (set_pc (wrap16 (pc s + 1)) s) in
      Some (mkOutcome true s w (out ++ [TraceJmp address]))
  | Some SYSCALL =>
      let '(s', w', o) := syscallHandler s w in
      Some (mkOutcome true s' w' (out ++ [TraceSyscall] ++ o))
  | Some HALT =>
      Some (mkOutcome false s w (out ++ [TraceHalt]))
  | None =>
      Some (mkOutcome false s w (out ++ [ErrUnknownInstruction instruction]))
  end.

(** [bool step()]. *)
Definition step (s : CPU) (w : World) : option Outcome :=
  if decide (pc s >= vsize (memory s)) then
    Some (mkOutcome false s w [ErrPcOutOfBounds])
  else
    instruction ← vget (memory s) (pc s);
    let s := set_pc (wrap16 (pc s + 1)) s in
    execute instruction s w [TracePC (pc s - 1)].

(** [while (cpu.step()) {}], with a bound on the number of calls. *)
Inductive RunResult : Type :=
| Finished (s : CPU) (w : World) (out : list event)
| Undefined
| OutOfFuel.

Fixpoint run (fuel : nat) (s : CPU) (w : World) (out : list event) : RunResult :=
  match fuel with
  | O => OutOfFuel
  | S fuel' =>
      match step s w with
      | None => Undefined
      | Some r =>
          if continue r then run fuel' (next r) (world r) (out ++ output r)
          else Finished (next r) (world r) (out ++ output r)
      end
  end.

(** [n] calls of [step] in a row, whatever each returns. *)
Fixpoint steps (n : nat) (s : CPU) (w : World) : option (CPU * World) :=
  match n with
  | O => Some (s, w)
  | S n' => r ← step s w; steps n' (next r) (world r)
  end.

(** The states the class can be in: the fields hold values of their C++
    types, the vectors have the sizes the constructor gave them (nothing in
    the program resizes them), and the stack pointer is within the stack
    ([step] moves it only under the guards of PUSH_B and POP_B). *)
Definition byte (z : Z) : Prop := 0 <= z < 256.

Record wf (s : CPU) : Prop := mkWf {
  wf_A : byte (reg_A s);
  wf_B : byte (reg_B s);
  wf_pc : 0 <= pc s < 65536;
  wf_sp : 0 <= sp s <= STACK_SIZE;
  wf_memory_size : vsize (memory s) = MEMORY_SIZE;
  wf_stack_size : vsize (stack s) = STACK_SIZE;
  wf_memory : Forall byte (memory s);
  wf_stack : Forall byte (stack s)
}.

End Engine.
Export Engine.

(** ** Text: string streams and number parsing *)

Module Text.

Definition char_code (c : ascii) : Z := Z.of_N (N_of_ascii c).

Definition isspace (c : ascii) : bool := isspace_code (char_code c).

Definition isdigit (c : ascii) : bool :=
  (48 <=? char_code c) && (char_code c <=? 57).

(** [getline(file, line)] until it fails: the text is cut at each newline;
    a last line without newline is still delivered, and nothing is
    delivered after a final newline. *)
Fixpoint getlines (text : string) : list string :=
  match text with
  | EmptyString => []
  | String c rest =>
      if Ascii.eqb c "010"%char then EmptyString :: getlines rest
      else match getlines rest with
           | [] => [String c EmptyString]
           | l :: ls => String c l :: ls
           end
  end.

Fixpoint skip_space (ss : string) : string :=
  match ss with
  | String c rest => if isspace c then skip_space rest else ss
  | EmptyString => EmptyString
  end.

Fixpoint take_word (ss : string) : string * string :=
  match ss with
  | String c rest =>
      if isspace c then (EmptyString, ss)
      else let '(t, r) := take_word rest in (String c t, r)
  | EmptyString => (EmptyString, EmptyString)
  end.

(** [ss >> token] on a [stringstream] whose unread part is [ss]: the new
    value of [token] and the unread part left.  When only white space is
    left the extraction fails, [token] keeps its value [old], and every
    later extraction from the stream fails too. *)
Definition read (old : string) (ss : string) : string * string :=
  match skip_space ss with
  | EmptyString => (old, EmptyString)
  | String c rest => take_word (String c rest)
  end.

(** [s.empty()]. *)
Definition empty (s : string) : bool :=
  match s with EmptyString => true | _ => false end.

(** [s[0]] of a string known to be non-empty (of an empty one it is the
    terminating NUL). *)
Definition front (s : string) : ascii :=
  match s with String c _ => c | EmptyString => "000"%char end.

(** The last character of [s], if it has one. *)
Fixpoint last_char (s : string) : option ascii :=
  match s with
  | EmptyString => None
  | String c EmptyString => Some c
  | String _ rest => last_char rest
  end.

(** [s] without its last character. *)
Fixpoint drop_last (s : string) : string :=
  match s with
  | EmptyString => EmptyString
  | String c EmptyString => EmptyString
  | String c rest => String c (drop_last rest)
  end.

Definition INT_MIN : Z := - 2147483648.
Definition INT_MAX : Z := 2147483647.

(** The digits at the front of [s], read in base ten on top of [acc];
    [seen] tells whether a digit has been consumed. *)
Fixpoint digits (s : string) (acc : Z) (seen : bool) : option Z :=
  match s with
  | String c rest =>
      if isdigit c then digits rest (acc * 10 + (char_code c - 48)) true
      else if seen then Some acc else None
  | EmptyString => if seen then Some acc else None
  end.

(** The optional sign in front of the digits. *)
Definition take_sign (s : string) : bool * string :=
  match s with
  | String "-"%char rest => (true, rest)
  | String "+"%char rest => (false, rest)
  | _ => (false, s)
  end.

(** [std::stoi(str, nullptr, 10)]: [strtol] skips leading white space,
    takes an optional sign and the longest run of decimal digits, and
    ignores what follows; [None] stands for the exception thrown when
    there is no digit ([invalid_argument]) or the value does not fit an
    [int] ([out_of_range]). *)
Definition stoi (str : string) : option Z :=
  let '(neg, s) := take_sign (skip_space str) in
  v ← digits s 0 false;
  let v := if neg : bool then - v else v in
  if (INT_MIN <=? v) && (v <=? INT_MAX) then Some v else None.

End Text.
Export Text.

(** ** The assembler *)

Module Assembler.

Inductive diag : Set :=
| ErrOpenAsm                               (* could not open the file *)
| ErrInvalidOperand (operand : string).

(** [token == "LOAD_A" || token == "LOAD_B" || token == "JMP" ||
    token == "STORE_A"]. *)
Definition has_operand (token : string) : bool :=
  String.eqb token "LOAD_A" || String.eqb token "LOAD_B"
  || String.eqb token "JMP" || String.eqb token "STORE_A".

(** The head of both loops: the first token of the line, [None] for a line
    that is skipped ([continue]). *)
Definition first_token (l : string) : option (string * string) :=
  let '(token, ss) := read EmptyString l in
  if empty token || Ascii.eqb (front token) ";"%char then None
  else Some (token, ss).

Definition is_label (token : string) : bool :=
  match last_char token with
  | Some c => Ascii.eqb c ":"%char
  | None => false
  end.

(** One iteration of the first loop on the label table and the address
    counter (a [uint16_t]). *)
Definition pass1_line (st : gmap string Z * Z) (l : string) : gmap string Z * Z :=
  match first_token l with
  | None => st
  | Some (token, ss) =>
      let '(labels, address) := st in
      let '(labels, token) :=
        if is_label token
        then (<[drop_last token := address]> labels, fst (read token ss))
        else (labels, token) in
      match opcodeMap !! token with
      | Some _ =>
          let address := wrap16 (address + 1) in
          if has_operand token then (labels, wrap16 (address + 1))
          else (labels, address)
      | None => (labels, address)
      end
  end.

Definition pass1 (lines : list string) : gmap string Z * Z :=
  foldl pass1_line (∅, USER_PROGRAM_START_ADDRESS) lines.

(** The mnemonic token of a line and the stream behind it, after a
    leading label has been passed over (second loop). *)
Definition mnemonic_of (l : string) : option (string * string) :=
  match first_token l with
  | None => None
  | Some (token, ss) =>
      if is_label token then Some (read token ss) else Some (token, ss)
  end.

(** The operand byte: the label's address if the token is a label,
    else [stoi]; both converted to [uint8_t]. *)
Definition operand_byte (labels : gmap string Z) (operand : string) : option Z :=
  match labels !! operand with
  | Some a => Some (wrap8 a)
  | None => wrap8 <$> stoi operand
  end.

(** One iteration of the second loop: the bytes appended to [bytecode], or
    the operand that made [assemble] return early. *)
Definition pass2_line (labels : gmap string Z) (l : string) : list Z + string :=
  match mnemonic_of l with
  | None => inl []
  | Some (token, ss) =>
      match opcodeMap !! token with
      | Some o =>
          if has_operand token then
            let operand := fst (read EmptyString ss) in
            match operand_byte labels operand with
            | Some b => inl [code o; b]
            | None => inr operand
            end
          else inl [code o]
      | None => inl []
      end
  end.

Fixpoint pass2 (labels : gmap string Z) (lines : list string) (bytecode : list Z)
  : list Z * list diag :=
  match lines with
  | [] => (bytecode, [])
  | l :: lines' =>
      match pass2_line labels l with
      | inl bs => pass2 labels lines' (bytecode ++ bs)
      | inr operand => ([], [ErrInvalidOperand operand])
      end
  end.

(** [assemble] once the file has been read into [lines]. *)
Definition assemble_lines (lines : list string) : list Z * list diag :=
  pass2 (fst (pass1 lines)) lines [].

(** [vector<uint8_t> assemble(const string& filename)]; [file] is the
    content of the file, [None] when it cannot be opened. *)
Definition assemble (file : option string) : list Z * list diag :=
  match file with
  | None => ([], [ErrOpenAsm])
  | Some text => assemble_lines (getlines text)
  end.

End Assembler.
Export Assembler.

(** ** The Micro-C compiler *)

Module Compiler.

(** The places where [compile] takes [back()] of a token. *)
Inductive site : Set :=
| VarNameToken          (* [varName.back()] after [int] *)
| OperatorToken         (* [op.back()] of a simple assignment *)
| SecondOperandToken.   (* [val2_str.back()] of an arithmetic assignment *)

(** [std::string::back()] and [pop_back()] require a non-empty string. *)
Inductive undefined : Set :=
| BackOfEmpty (at_ : site)
| PopBackOfEmpty (at_ : site).

Inductive cdiag : Set :=
| ErrOpenSource                              (* could not open the file *)
| ErrAlreadyDeclared (name : string)
| ErrExpectedEquals
| ErrUndefinedVariable (name : string)
| ErrBadOperand (operand : string)           (* "Invalid operand" *)
| ErrUnknownOperator (op : string)
| LogDeclared (name : string) (addr : Z).    (* "Compiling: Declared variable" *)

(** The locals of [compile] that live across the lines, and the console
    output so far. *)
Record CState : Type := mkCState {
  assemblyOutput : list Z;
  variables : gmap string Z;
  next_var_addr : Z;
  console : list cdiag
}.

(** How a line, or the whole call, ends: it goes on with a value, it
    returns the empty vector after the diagnostics [log], or it runs into
    undefined behaviour. *)
Inductive Res (A : Type) : Type :=
| Ok (a : A)
| Fail (log : list cdiag)
| UB (u : undefined).
Arguments Ok {A} a.
Arguments Fail {A} log.
Arguments UB {A} u.

#[global] Instance Res_bind : MBind Res := fun A B f m =>
  match m with
  | Ok a => f a
  | Fail log => Fail log
  | UB u => UB u
  end.

(** [t.back()].  [on_empty] is what the call does on an empty string, where
    the standard leaves it undefined: [None] when it is trapped (a library
    built with assertions), [Some c] when an unchecked library reads the
    byte [c] next to the buffer. *)
Definition back (on_empty : option ascii) (at_ : site) (t : string) : Res ascii :=
  match last_char t with
  | Some c => Ok c
  | None =>
      match on_empty with
      | Some c => Ok c
      | None => UB (BackOfEmpty at_)
      end
  end.

(** [t.pop_back()]. *)
Definition pop_back (at_ : site) (t : string) : Res string :=
  if empty t then UB (PopBackOfEmpty at_) else Ok (drop_last t).

(** [if (t.back() == ';') t.pop_back();]. *)
Definition strip_semicolon (on_empty : option ascii) (at_ : site) (t : string)
  : Res string :=
  c ← back on_empty at_ t;
  if Ascii.eqb c ";"%char then pop_back at_ t else Ok t.

(** [token.size() >= 2 && token[0] == '/' && token[1] == '/']. *)
Definition is_comment (token : string) : bool :=
  match token with
  | String c0 (String c1 _) => Ascii.eqb c0 "/"%char && Ascii.eqb c1 "/"%char
  | _ => false
  end.

(** The two bytes pushed for an operand: the load opcode, then the address
    of the variable if the token names one, else [stoi] of the token as a
    [uint8_t]; [stoi] throwing ends the call. *)
Definition push_operand (load : OpCode) (vars : gmap string Z) (val : string)
    (log : list cdiag) (out : list Z) : Res (list Z) :=
  match vars !! val with
  | Some a => Ok (out ++ [code load; a])
  | None =>
      match stoi val with
      | Some v => Ok (out ++ [code load; wrap8 v])
      | None => Fail (log ++ [ErrBadOperand val])
      end
  end.

(** One iteration of the [while (getline(file, line))] loop. *)
Definition compile_line (on_empty : option ascii) (st : CState) (line : string)
  : Res CState :=
  let '(token, ss) := read EmptyString line in
  if empty token || is_comment token then Ok st
  else if String.eqb token "int" then
    let '(varName, ss) := read EmptyString ss in
    varName ← strip_semicolon on_empty VarNameToken varName;
    match variables st !! varName with
    | Some _ => Fail (console st ++ [ErrAlreadyDeclared varName])
    | None =>
        Ok (mkCState (assemblyOutput st)
                     (<[varName := next_var_addr st]> (variables st))
                     (wrap8 (next_var_addr st + 1))
                     (console st ++ [LogDeclared varName (next_var_addr st)]))
    end
  else
    let varName := token in
    let '(equals, ss) := read EmptyString ss in
    let '(val1, ss) := read EmptyString ss in
    if negb (String.eqb equals "=") then Fail (console st ++ [ErrExpectedEquals])
    else
      match variables st !! varName with
      | None => Fail (console st ++ [ErrUndefinedVariable varName])
      | Some target =>
          let '(op, ss) := read EmptyString ss in
          last ← (if empty op then Ok true
                  else c ← back on_empty OperatorToken op;
                       Ok (Ascii.eqb c ";"%char));
          if last : bool then
            (* simple assignment *)
            _ ← strip_semicolon on_empty OperatorToken op;
            out ← push_operand LOAD_A (variables st) val1 (console st)
                               (assemblyOutput st);
            Ok (mkCState (out ++ [code STORE_A; target])
                         (variables st) (next_var_addr st) (console st))
          else
            (* arithmetic assignment *)
            let '(val2_str, ss) := read EmptyString ss in
            val2_str ← strip_semicolon on_empty SecondOperandToken val2_str;
            out ← push_operand LOAD_A (variables st) val1 (console st)
                               (assemblyOutput st);
            out ← push_operand LOAD_B (variables st) val2_str (console st) out;
            if String.eqb op "+" then
              Ok (mkCState (out ++ [code ADD_A_B] ++ [code STORE_A; target])
                           (variables st) (next_var_addr st) (console st))
            else if String.eqb op "-" then
              Ok (mkCState (out ++ [code SUB_A_B] ++ [code STORE_A; target])
                           (variables st) (next_var_addr st) (console st))
            else Fail (console st ++ [ErrUnknownOperator op])
      end.

Fixpoint compile_loop (on_empty : option ascii) (st : CState) (lines : list string)
  : Res CState :=
  match lines with
  | [] => Ok st
  | line :: lines' =>
      st' ← compile_line on_empty st line;
      compile_loop on_empty st' lines'
  end.

(** What a call of [compile] amounts to: the vector it returns with what
    it printed, or undefined behaviour. *)
Inductive CompileResult : Type :=
| Returned (bytecode : list Z) (log : list cdiag)
| UndefinedBehaviour (u : undefined).

Definition initial : CState := mkCState [] ∅ 0x10 [].

(** [compile] once the file is open, on its lines. *)
Definition compile_lines (on_empty : option ascii) (lines : list string)
  : CompileResult :=
  match compile_loop on_empty initial lines with
  | Ok st => Returned (assemblyOutput st ++ [code HALT]) (console st)
  | Fail log => Returned [] log
  | UB u => UndefinedBehaviour u
  end.

(** [vector<uint8_t> compile(const string& filename)]; [file] is the
    content of the file, [None] when it cannot be opened. *)
Definition compile (on_empty : option ascii) (file : option string)
  : CompileResult :=
  match file with
  | None => Returned [] [ErrOpenSource]
  | Some text => compile_lines on_empty (getlines text)
  end.

End Compiler.
Export Compiler.

(** ** Vocabulary of the properties *)

(** The byte at [pc] is the opcode [o]: the next [step] executes [o]. *)
Definition executes (o : OpCode) (s : CPU) : Prop :=
  vget (memory s) (pc s) = Some (code o).

(** The bytes [prog] are what the machine fetches from [pc] on (the program
    counter wraps at 65536, and so does the place of the bytes). *)
Definition loaded_at (prog : list Z) (s : CPU) : Prop :=
  (λ i, vget (memory s) (wrap16 (pc s + Z.of_nat i))) <$> seq 0 (length prog)
  = Some <$> prog.

(** [LOAD_B v; PUSH_B] for each value, in order. *)
Definition push_code (vs : list Z) : list Z :=
  vs ≫= λ v, [code LOAD_B; v; code PUSH_B].

(** As many [POP_B] as wanted. *)
Definition pop_code (n : nat) : list Z := replicate n (code POP_B).

Definition push_pop_program (vs : list Z) : list Z :=
  push_code vs ++ pop_code (length vs).

(** [n] calls of [step], and the content of [reg_B] after each. *)
Fixpoint collect_B (n : nat) (s : CPU) (w : World) : option (list Z) :=
  match n with
  | O => Some []
  | S n' =>
      r ← step s w;
      bs ← collect_B n' (next r) (world r);
      Some (reg_B (next r) :: bs)
  end.

(** Run the pushes of [push_pop_program vs], then its pops, and report what
    each pop left in [reg_B]. *)
Definition push_then_pop (vs : list Z) (s : CPU) (w : World) : option (list Z) :=
  '(s', w') ← steps (2 * length vs) s w;
  collect_B (length vs) s' w'.

(** The memory cell [addr] of the machine a run halted in; [None] when the
    run did not halt. *)
Definition final_memory (r : RunResult) (addr : Z) : option Z :=
  match r with
  | Finished s _ _ => vget (memory s) addr
  | _ => None
  end.

(** The operand token of a line whose mnemonic takes one. *)
Definition operand_of (l : string) : option string :=
  match mnemonic_of l with
  | Some (token, ss) =>
      if has_operand token then Some (fst (read EmptyString ss)) else None
  | None => None
  end.

Definition operand_tokens (lines : list string) : list string :=
  omap operand_of lines.

(** The labels defined in the source. *)
Definition defined_labels (lines : list string) : gmap string Z :=
  fst (pass1 lines).

(** A decimal integer in the strict sense: an optional sign, then digits and
    nothing else. *)
Fixpoint all_digits (s : string) : bool :=
  match s with
  | EmptyString => true
  | String c rest => isdigit c && all_digits rest
  end.

Definition is_decimal_integer (t : string) : bool :=
  match t with
  | String "-"%char rest | String "+"%char rest => negb (empty rest) && all_digits rest
  | _ => negb (empty t) && all_digits t
  end.

(** Sample inputs. *)

Definition quiet : World := mkWorld [] 0.

(** A fresh machine with [image] loaded at address 0. *)
Definition boot (image : list Z) : CPU := fst (loadProgram image 0 CPU_new).


Definition add_machine : CPU := set_A 250 (set_B 10 (boot [code ADD_A_B])).
Definition sub_machine : CPU := set_A 5 (set_B 10 (boot [code SUB_A_B])).

(** [SYSCALL] at address 0 with the unassigned syscall number 7 in A. *)
Definition bad_syscall_machine : CPU := set_A 7 (set_B 9 (boot [code SYSCALL])).

Definition NUL : ascii := "000"%char.

Definition round_trip_source : string :=
  "start: LOAD_A 5
STORE_A 20
JMP start
".

Definition sum_source : string :=
  "int a;
int b;
a = 3;
b = a + 2;
".

Definition sum_source_one_line : string :=
  "int a; int b; a = 3; b = a + 2;
".

(** The same statements with a space in front of the semicolon of the
    simple assignment, which makes [;] the operator token. *)
Definition sum_source_spaced : string :=
  "int a;
int b;
a = 3 ;
b = a + 2;
".

Definition sum_bytecode : list Z :=
  [0x03; 3; 0x05; 0x10; 0x03; 0x10; 0x04; 2; 0x10; 0x05; 0x11; 0xFF].

(** 256 zeros, then a one: one value more than the stack holds. *)
Definition overfull : list Z := replicate 256 0 ++ [1].

Definition overfull_machine : CPU := boot (push_pop_program overfull).

Definition lifo_machine : CPU := boot (push_pop_program [5; 6; 7]).

(** A full stack, and PUSH_B at address 0. *)
Definition full_machine : CPU := set_sp 256 (set_B 9 (boot [code PUSH_B])).

(** An empty stack, and POP_B at address 0. *)
Definition empty_machine : CPU := set_B 9 (boot [code POP_B]).

(** * Further parts of the program *)

(** ** More vocabulary *)

(** [LOAD_A 2; SYSCALL; LOAD_A 1; SYSCALL; HALT]: read a character, print
    it. *)
Definition echo_program : list Z :=
  [code LOAD_A; READ_CHAR; code SYSCALL; code LOAD_A; PRINT_CHAR; code SYSCALL;
   code HALT].

(** LOAD_A in the last memory cell, and 42 in the first. *)
Definition wrap_machine : CPU :=
  set_pc 65535 (fst (loadProgram [code LOAD_A] 65535 (boot [42]))).

(** [JMP 0] at address 0. *)
Definition spin_machine : CPU := boot [code JMP; 0].

(** ** The hex loader *)

Module HexLoader.

Definition hex_value (c : ascii) : option Z :=
  let n := char_code c in
  if (48 <=? n) && (n <=? 57) then Some (n - 48)         (* 0-9 *)
  else if (97 <=? n) && (n <=? 102) then Some (n - 87)   (* a-f *)
  else if (65 <=? n) && (n <=? 70) then Some (n - 55)    (* A-F *)
  else None.

(** The hexadecimal digits at the front of [s], read on top of [acc]. *)
Fixpoint hex_digits (s : string) (acc : Z) (seen : bool) : option Z :=
  match s with
  | String c rest =>
      match hex_value c with
      | Some d => hex_digits rest (acc * 16 + d) true
      | None => if seen then Some acc else None
      end
  | EmptyString => if seen then Some acc else None
  end.

(** The prefix [0x] or [0X] is passed over when a hexadecimal digit follows
    it; otherwise the [0] is the number and the [x] ends it. *)
Definition skip_0x (s : string) : string :=
  match s with
  | String c0 (String c1 (String c2 rest)) =>
      if Ascii.eqb c0 "0"%char
         && (Ascii.eqb c1 "x"%char || Ascii.eqb c1 "X"%char)
         && bool_decide (is_Some (hex_value c2))
      then String c2 rest else s
  | _ => s
  end.

(** [std::stoi(str, nullptr, 16)]; [None] stands for the exception
    thrown. *)
Definition stoi16 (str : string) : option Z :=
  let '(neg, s) := take_sign (skip_space str) in
  v ← hex_digits (skip_0x s) 0 false;
  let v := if neg : bool then - v else v in
  if (INT_MIN <=? v) && (v <=? INT_MAX) then Some v else None.

Inductive hdiag : Set :=
| ErrInvalidHexByte (t : string)     (* "Invalid hex byte value: " *)
| ErrParseHexByte (t : string).      (* "Error parsing hex byte: " *)

(** The body of the loop: the byte a token stands for, or what is
    reported. *)
Definition hex_byte (t : string) : Z + hdiag :=
  match stoi16 t with
  | Some v =>
      if (0 <=? v) && (v <=? 255) then inl v else inr (ErrInvalidHexByte t)
  | None => inr (ErrParseHexByte t)
  end.

(** [ss >> token] as a loop condition: the token and the unread part, or
    [None] when only white space is left. *)
Definition extract (ss : string) : option (string * string) :=
  match skip_space ss with
  | EmptyString => None
  | String c rest => Some (take_word (String c rest))
  end.

(** [while (ss >> hexByte) { ... }], with a bound on the number of
    iterations; [None] when the bound is used up. *)
Fixpoint hex_loop (fuel : nat) (ss : string) (program : list Z) (log : list hdiag)
  : option (list Z * list hdiag) :=
  match fuel with
  | O => None
  | S fuel' =>
      match extract ss with
      | None => Some (program, log)
      | Some (hexByte, ss') =>
          match hex_byte hexByte with
          | inl v => hex_loop fuel' ss' (program ++ [v]) log
          | inr d => hex_loop fuel' ss' program (log ++ [d])
          end
      end
  end.

(** [vector<uint8_t> parseHexProgram(const string& hexString)]: every
    iteration consumes at least one character, so one more iteration than
    the string has characters is enough. *)
Definition parseHexProgram (hexString : string) : option (list Z * list hdiag) :=
  hex_loop (S (String.length hexString)) hexString [] [].

(** What [cout << hex << v] prints for an [int v >= 0] (as the [mem]
    command does for a memory cell): the hexadecimal digits of [v] in lower
    case, without prefix or leading zeros. *)
Definition hex_digit_char (d : Z) : ascii :=
  ascii_of_N (Z.to_N (if d <? 10 then 48 + d else 87 + d)).

Fixpoint hex_text_from (fuel : nat) (v : Z) (acc : string) : string :=
  match fuel with
  | O => acc
  | S fuel' =>
      let acc' := String (hex_digit_char (v mod 16)) acc in
      if v / 16 =? 0 then acc' else hex_text_from fuel' (v / 16) acc'
  end.

Definition hex_text (v : Z) : string := hex_text_from 8 v EmptyString.

End HexLoader.
Export HexLoader.

(** A token as [>>] delivers it: not empty, no white space in it. *)
Fixpoint no_space (t : string) : bool :=
  match t with
  | EmptyString => true
  | String c rest => negb (isspace c) && no_space rest
  end.

Definition is_word (t : string) : bool := negb (empty t) && no_space t.

(** The bytes in hexadecimal, each followed by a space. *)
Definition hex_line (bs : list Z) : string :=
  foldr (λ b rest, hex_text b +:+ String " "%char rest) EmptyString bs.

(** The label a line defines: its first token without the colon, when the
    token ends in a colon. *)
Definition label_of (l : string) : option string :=
  match first_token l with
  | Some (token, _) => if is_label token then Some (drop_last token) else None
  | None => None
  end.

(** The number of bytes a line stands for: 2 for a mnemonic with an operand,
    1 for any other mnemonic, 0 for a line without mnemonic. *)
Definition line_size (l : string) : Z :=
  match mnemonic_of l with
  | Some (token, _) =>
      match opcodeMap !! token with
      | Some _ => if has_operand token then 2 else 1
      | None => 0
      end
  | None => 0
  end.

Definition code_size (lines : list string) : Z :=
  foldr (λ l n, line_size l + n) 0 lines.

(** What the second loop appends for a list of lines: the bytes of all of
    them, or the operand at which it stops. *)
Fixpoint emitted (labels : gmap string Z) (lines : list string) : list Z + string :=
  match lines with
  | [] => inl []
  | l :: lines' =>
      match pass2_line labels l with
      | inl b0 =>
          match emitted labels lines' with
          | inl bs => inl (b0 ++ bs)
          | inr e => inr e
          end
      | inr e => inr e
      end
  end.

(** A diagnostic of the compiler that belongs to a failure (all of them but
    the report of a declaration). *)
Definition is_error (d : cdiag) : bool :=
  match d with
  | LogDeclared _ _ => false
  | _ => true
  end.

(** What the compiler prints for the declarations [names], in order: the
    i-th name with the address 0x10 + i, as a [uint8_t]. *)
Definition declarations (names : list string) : list cdiag :=
  imap (λ i x, LogDeclared x (wrap8 (0x10 + Z.of_nat i))) names.

(** The tokens of a line, each followed by one space. *)
Definition spaced (tokens : list string) : string :=
  foldr (λ t rest, t +:+ String " "%char rest) EmptyString tokens.

(** ** The command loop *)

Module Repl.

(** The locals of [main] that live across the commands. *)
Record Session : Type := mkSession {
  cpu : CPU;
  running : bool
}.

(** What the loop depends on besides the console: the files that can be
    opened, with their content, and what [back()] of an empty string does
    in [compile]. *)
Record Host : Type := mkHost {
  files : string → option string;
  on_empty : option ascii
}.

(** What is printed, by [main] itself or by what it calls. *)
Inductive message : Type :=
| Banner                       (* "CPU Emulator Ready. ..." *)
| Prompt                       (* "> " *)
| Help
| FromEngine (e : event)
| FromHexLoader (d : hdiag)
| FromAssembler (d : diag)
| FromCompiler (d : cdiag)
| MsgLoaded                    (* "Program loaded and PC reset to 0." *)
| MsgAsmLoaded (filename : string)
| MsgAsmFailed                 (* "Failed to assemble program." *)
| MsgAsmUsage
| MsgCompiled (filename : string)
| MsgCompileFailed             (* "Failed to compile program." *)
| MsgCompileUsage
| MsgFinished                  (* "Program finished." *)
| MsgNothingToRun              (* "No program loaded. Use ..." *)
| MsgNothingToStep             (* "No program loaded or program has halted. ..." *)
| DumpState (a b pc_ sp_ : Z) (priv : bool)
| MemCell (address value : Z)  (* "Memory at 0x..: 0x.. (..)" *)
| MsgInvalidAddress            (* "Invalid memory address." *)
| MsgReset                     (* "CPU state reset." *)
| MsgExit                      (* "Exiting emulator." *)
| MsgUnknown.                  (* "Unknown command. ..." *)

(** How one command ends: the loop goes on, the loop is left, undefined
    behaviour was met, or the [while (cpu.step())] of [run] used up the
    bound on its steps. *)
Inductive Verdict : Type :=
| Next (ses : Session) (w : World) (out : list message)
| Exit (out : list message)
| Broken (out : list message)
| Unbounded (out : list message).

(** [void dumpState()]. *)
Definition dumpState (s : CPU) : list message :=
  [DumpState (reg_A s) (reg_B s) (pc s) (sp s) (privileged s)].

(** [cpu.loadProgram(program, USER_PROGRAM_START_ADDRESS);
    cpu.pc = USER_PROGRAM_START_ADDRESS; running = true;]. *)
Definition install (program : list Z) (ses : Session) : Session * list message :=
  let '(c, errs) := loadProgram program USER_PROGRAM_START_ADDRESS (cpu ses) in
  (mkSession (set_pc USER_PROGRAM_START_ADDRESS c) true, FromEngine <$> errs).

(** [ss >> hex >> address] for the local [uint16_t address], which has no
    initialiser.  With nothing but white space left, the extraction stores
    nothing and [address] is never assigned: [None].  Otherwise an optional
    sign, an optional [0x] and hexadecimal digits are read; a text without
    digits gives 0, a value above 65535 gives 65535, and a negative one is
    taken modulo 65536. *)
Definition get_hex_u16 (ss : string) : option Z :=
  match skip_space ss with
  | EmptyString => None
  | String c rest =>
      let '(neg, s) := take_sign (String c rest) in
      let v := default 0 (hex_digits (skip_0x s) 0 false) in
      if 65535 <? v then Some 65535
      else if neg : bool then Some (wrap16 (- v)) else Some v
  end.

(** The body of the loop behind [ss >> command]. *)
Definition command (h : Host) (fuel : nat) (line : string)
    (ses : Session) (w : World) : Verdict :=
  let '(cmd, ss) := read EmptyString line in
  if String.eqb cmd "help" then Next ses w [Help]
  else if String.eqb cmd "load" then
    match parseHexProgram ss with
    | None => Unbounded []
    | Some (program, log) =>
        let out := FromHexLoader <$> log in
        if bool_decide (program = []) then Next ses w out
        else let '(ses', errs) := install program ses in
             Next ses' w (out ++ errs ++ [MsgLoaded])
    end
  else if String.eqb cmd "asm" then
    let filename := fst (read EmptyString ss) in
    if empty filename then Next ses w [MsgAsmUsage]
    else
      let '(program, log) := assemble (files h filename) in
      let out := FromAssembler <$> log in
      if bool_decide (program = []) then Next ses w (out ++ [MsgAsmFailed])
      else let '(ses', errs) := install program ses in
           Next ses' w (out ++ errs ++ [MsgAsmLoaded filename])
  else if String.eqb cmd "compile" then
    let filename := fst (read EmptyString ss) in
    if empty filename then Next ses w [MsgCompileUsage]
    else
      match compile (on_empty h) (files h filename) with
      | UndefinedBehaviour _ => Broken []
      | Returned bytecode log =>
          let out := FromCompiler <$> log in
          if bool_decide (bytecode = []) then Next ses w (out ++ [MsgCompileFailed])
          else let '(ses', errs) := install bytecode ses in
               Next ses' w (out ++ errs ++ [MsgCompiled filename])
      end
  else if String.eqb cmd "run" then
    if running ses then
      match run fuel (cpu ses) w [] with
      | Finished s w' out =>
          Next (mkSession s false) w' ((FromEngine <$> out) ++ [MsgFinished])
      | Undefined => Broken []
      | OutOfFuel => Unbounded []
      end
    else Next ses w [MsgNothingToRun]
  else if String.eqb cmd "step" then
    if running ses then
      match step (cpu ses) w with
      | None => Broken []
      | Some r =>
          if continue r
          then Next (mkSession (next r) true) (world r) (FromEngine <$> output r)
          else Next (mkSession (next r) false) (world r)
                    ((FromEngine <$> output r) ++ [MsgFinished])
      end
    else Next ses w [MsgNothingToStep]
  else if String.eqb cmd "dump" then Next ses w (dumpState (cpu ses))
  else if String.eqb cmd "mem" then
    match get_hex_u16 ss with
    | None => Broken []        (* [address] is read without a value *)
    | Some address =>
        if decide (address < vsize (memory (cpu ses))) then
          match vget (memory (cpu ses)) address with
          | Some v => Next ses w [MemCell address v]
          | None => Broken []
          end
        else Next ses w [MsgInvalidAddress]
    end
  else if String.eqb cmd "reset" then
    Next (mkSession (set_B 0 (set_A 0 (set_pc 0 (cpu ses)))) false) w [MsgReset]
  else if String.eqb cmd "quit" then Exit [MsgExit]
  else Next ses w [MsgUnknown].

(** [getline(cin, line)]: the characters up to the next newline, which is
    consumed; at the end of the input it fails and [line] stays empty. *)
Fixpoint get_line (input : list Z) : string * list Z :=
  match input with
  | [] => (EmptyString, [])
  | c :: rest =>
      if c =? 10 then (EmptyString, rest)
      else let '(l, rest') := get_line rest in
           (String (ascii_of_N (Z.to_N c)) l, rest')
  end.

(** How [main] ends, with what was printed: it returns, it meets
    undefined behaviour, or a bound is used up (that of the commands, or
    that of a [run]). *)
Inductive Ending : Type :=
| Returns (out : list message)
| Breaks (out : list message)
| GoesOn (out : list message).

(** [while (true) { ... }], for at most [commands] iterations. *)
Fixpoint main_loop (commands : nat) (h : Host) (fuel : nat)
    (ses : Session) (w : World) (out : list message) : Ending :=
  match commands with
  | O => GoesOn out
  | S commands' =>
      let '(line, input') := get_line (cin w) in
      match command h fuel line ses (mkWorld input' (uninit w)) with
      | Next ses' w' o => main_loop commands' h fuel ses' w' (out ++ [Prompt] ++ o)
      | Exit o => Returns (out ++ [Prompt] ++ o)
      | Broken o => Breaks (out ++ [Prompt] ++ o)
      | Unbounded o => GoesOn (out ++ [Prompt] ++ o)
      end
  end.

(** [int main()]. *)
Definition main (h : Host) (commands fuel : nat) (w : World) : Ending :=
  main_loop commands h fuel (mkSession CPU_new false) w [Banner].

End Repl.
Export Repl.

(** The characters of a text, as the console delivers them. *)
Fixpoint keys (text : string) : list Z :=
  match text with
  | EmptyString => []
  | String c rest => char_code c :: keys rest
  end.

(** No file can be opened. *)
Definition bare_host : Host := mkHost (λ _, None) None.

(** What holds of the locals of [compile] between two lines, [names] being
    the names declared so far. *)
Record declared (names : list string) (st : CState) : Prop := mkDeclared {
  d_console : console st = declarations names;
  d_next : next_var_addr st = wrap8 (0x10 + Z.of_nat (length names));
  d_nodup : NoDup names;
  d_dom : ∀ x, is_Some (variables st !! x) ↔ x ∈ names;
  d_addr : ∀ i x, names !! i = Some x →
                  variables st !! x = Some (wrap8 (0x10 + Z.of_nat i));
  d_bytes : Forall byte (assemblyOutput st)
}.

(** * Properties *)

(** ** Decoding *)

Lemma decode_code (o : OpCode) : decode (code o) = Some o.
Proof. destruct o; reflexivity. Qed.

Lemma decode_Some (b : Z) (o : OpCode) : decode b = Some o → b = code o.
Proof.
  unfold decode.
  repeat match goal with
         | |- context [b =? ?c] =>
             destruct (Z.eqb_spec b c) as [->|_]; [intros [= <-]; reflexivity|]
         end.
  discriminate.
Qed.

(** ** Vectors *)

Lemma vget_lt (v : list Z) (i x : Z) : vget v i = Some x → i < vsize v.
Proof.
  unfold vget, vsize. intros H%lookup_lt_Some. lia.
Qed.

Lemma vget_is_Some (v : list Z) (i : Z) :
  0 <= i < vsize v → is_Some (vget v i).
Proof.
  unfold vget, vsize. intros H. apply lookup_lt_is_Some. lia.
Qed.

Lemma vget_byte (v : list Z) (i x : Z) :
  Forall byte v → vget v i = Some x → byte x.
Proof.
  unfold vget. intros Hv Hx. eapply Forall_lookup_1; eauto.
Qed.

Lemma wrap16_range (z : Z) : 0 <= wrap16 z < 65536.
Proof. unfold wrap16. apply Z.mod_pos_bound. lia. Qed.

Lemma wrap8_byte (z : Z) : byte (wrap8 z).
Proof. unfold wrap8, byte. apply Z.mod_pos_bound. lia. Qed.

Lemma wrap16_small (z : Z) : 0 <= z < 65536 → wrap16 z = z.
Proof. unfold wrap16. intros. apply Z.mod_small. lia. Qed.

Lemma wrap16_add_l (a b : Z) : wrap16 (wrap16 a + b) = wrap16 (a + b).
Proof. unfold wrap16. apply Zplus_mod_idemp_l. Qed.

(** ** One step *)

(** A byte can be fetched at [pc]: the bounds check of [step] passes and the
    switch runs with the incremented [pc]. *)
Lemma step_fetch (s : CPU) (w : World) (i : Z) :
  vget (memory s) (pc s) = Some i →
  step s w = execute i (set_pc (wrap16 (pc s + 1)) s) w
                     [TracePC (wrap16 (pc s + 1) - 1)].
Proof.
  intros H. unfold step.
  pose proof (vget_lt _ _ _ H).
  destruct (decide _) as [?|_]; [lia|].
  rewrite H. reflexivity.
Qed.


Lemma wf_fetch (s : CPU) : wf s → ∃ i, vget (memory s) (pc s) = Some i ∧ byte i.
Proof.
  intros H.
  destruct (vget_is_Some (memory s) (pc s)) as [i Hi].
  { rewrite (wf_memory_size _ H). pose proof (wf_pc _ H). unfold MEMORY_SIZE. lia. }
  exists i. split; [done|]. eapply vget_byte; [apply H | done].
Qed.

Lemma CPU_new_wf : wf CPU_new.
Proof.
  split; unfold CPU_new, byte, vsize;
    cbn [reg_A reg_B pc sp memory stack]; try lia.
  - unfold STACK_SIZE. lia.
  - rewrite length_replicate. apply Z2Nat.id. discriminate.
  - rewrite length_replicate. apply Z2Nat.id. discriminate.
  - apply Forall_replicate. lia.
  - apply Forall_replicate. lia.
Qed.

(** ** Arithmetic (C8) *)

Lemma step_ADD (s : CPU) (w : World) :
  executes ADD_A_B s →
  step s w = Some (mkOutcome true
    (set_A (wrap8 (reg_A s + reg_B s)) (set_pc (wrap16 (pc s + 1)) s)) w
    [TracePC (wrap16 (pc s + 1) - 1); TraceAdd (wrap8 (reg_A s + reg_B s))]).
Proof. intros H. rewrite (step_fetch _ _ _ H). reflexivity. Qed.

Lemma step_SUB (s : CPU) (w : World) :
  executes SUB_A_B s →
  step s w = Some (mkOutcome true
    (set_A (wrap8 (reg_A s - reg_B s)) (set_pc (wrap16 (pc s + 1)) s)) w
    [TracePC (wrap16 (pc s + 1) - 1); TraceSub (wrap8 (reg_A s - reg_B s))]).
Proof. intros H. rewrite (step_fetch _ _ _ H). reflexivity. Qed.

(** C8.  Executing ADD_A_B sets A to (A + B) mod 256 and executing SUB_A_B
    sets A to (A - B) mod 256, an 8-bit wrap-around; B, SP, the memory and
    the stack are unchanged and [step] asks to go on.  With A = 250 and
    B = 10, ADD_A_B leaves 4 in A; with A = 5 and B = 10, SUB_A_B leaves
    251. *)
Theorem add_sub_wrap_mod_256 (s : CPU) (w : World) :
  executes ADD_A_B s ∨ executes SUB_A_B s →
  ∃ r, step s w = Some r ∧ continue r = true ∧
       (executes ADD_A_B s →
          reg_A (next r) = (reg_A s + reg_B s) mod 256 ∧
          (reg_A s = 250 → reg_B s = 10 → reg_A (next r) = 4)) ∧
       (executes SUB_A_B s →
          reg_A (next r) = (reg_A s - reg_B s) mod 256 ∧
          (reg_A s = 5 → reg_B s = 10 → reg_A (next r) = 251)) ∧
       reg_B (next r) = reg_B s ∧ sp (next r) = sp s ∧
       memory (next r) = memory s ∧ stack (next r) = stack s.
Proof.
  intros [H|H]; [rewrite (step_ADD s w H) | rewrite (step_SUB s w H)];
    eexists; (split; [reflexivity|]);
    cbn [continue next reg_A reg_B sp memory stack set_A set_pc];
    split_and!; try reflexivity;
    unfold executes in *; intros H'; rewrite H in H'; try discriminate H';
    (split; [reflexivity | intros -> ->; reflexivity]).
Qed.

Lemma add_sub_wrap_mod_256_witness :
  (∃ r, step add_machine quiet = Some r ∧ reg_A (next r) = 4) ∧
  (∃ r, step sub_machine quiet = Some r ∧ reg_A (next r) = 251).
Proof.
  split.
  - destruct (add_sub_wrap_mod_256 add_machine quiet) as (r & Hr & _ & Ha & _).
    { left. vm_compute. reflexivity. }
    exists r. split; [exact Hr|].
    apply Ha; vm_compute; reflexivity.
  - destruct (add_sub_wrap_mod_256 sub_machine quiet) as (r & Hr & _ & _ & Hs & _).
    { right. vm_compute. reflexivity. }
    exists r. split; [exact Hr|].
    apply Hs; vm_compute; reflexivity.
Defined.

(** ** The two halts of the fetch *)


(** The guard at the head of [step]: when [pc] is no index of the memory
    vector nothing is fetched. *)
Lemma step_out_of_bounds (s : CPU) (w : World) :
  pc s >= vsize (memory s) →
  step s w = Some (mkOutcome false s w [ErrPcOutOfBounds]).
Proof.
  intros H. unfold step. destruct (decide _) as [_|?]; [reflexivity|lia].
Qed.

(** ** System calls (C2, C9) *)

Lemma step_SYSCALL (s : CPU) (w : World) :
  executes SYSCALL s →
  step s w =
    let '(s', w', o) := syscallHandler (set_pc (wrap16 (pc s + 1)) s) w in
    Some (mkOutcome true s' w'
            ([TracePC (wrap16 (pc s + 1) - 1)] ++ [TraceSyscall] ++ o)).
Proof. intros H. rewrite (step_fetch _ _ _ H). reflexivity. Qed.

(** C2, as the code has it.  With SYSCALL at PC and a number other than 1
    and 2 in A, [step] reports the unknown syscall and leaves A and B as they
    are, but it returns true: the machine goes on with the next
    instruction. *)
Theorem unknown_syscall_continues (s : CPU) (w : World) :
  executes SYSCALL s → reg_A s ≠ 1 → reg_A s ≠ 2 →
  step s w = Some (mkOutcome true
    (set_privileged false (set_pc (wrap16 (pc s + 1)) s)) w
    [TracePC (wrap16 (pc s + 1) - 1); TraceSyscall; ErrUnknownSyscall (reg_A s)]).
Proof.
  intros H H1 H2. rewrite (step_SYSCALL _ _ H).
  unfold syscallHandler, syscallHandler_run, syscall_dispatch, PRINT_CHAR, READ_CHAR. cbn.
  destruct (Z.eqb_spec (reg_A s) 1) as [?|_]; [contradiction|].
  destruct (Z.eqb_spec (reg_A s) 2) as [?|_]; [contradiction|].
  reflexivity.
Qed.

Lemma unknown_syscall_continues_witness :
  ∃ r, step bad_syscall_machine quiet = Some r ∧ continue r = true ∧
       reg_A (next r) = 7 ∧ reg_B (next r) = 9 ∧
       output r = [TracePC 0; TraceSyscall; ErrUnknownSyscall 7].
Proof.
  eexists. split.
  - apply (unknown_syscall_continues bad_syscall_machine quiet);
      vm_compute; [reflexivity | discriminate | discriminate].
  - vm_compute. repeat split.
Defined.


(** [step] is defined on every state of the class, keeps it a state of the
    class, and leaves the privilege flag cleared if it was. *)
Lemma vset_wf (v : list Z) (i x : Z) (n : Z) :
  vsize v = n → 0 <= i < n → Forall byte v → byte x →
  ∃ v', vset v i x = Some v' ∧ vsize v' = n ∧ Forall byte v'.
Proof.
  intros Hn Hi Hv Hx. unfold vset.
  destruct (decide _) as [_|?]; [|lia].
  eexists. split; [reflexivity|]. split.
  - unfold vsize in *. rewrite length_insert. done.
  - apply Forall_insert; done.
Qed.

Lemma step_wf (s : CPU) (w : World) :
  wf s →
  ∃ r, step s w = Some r ∧ wf (next r) ∧
       (privileged s = false → privileged (next r) = false).
Proof.
  intros [HA HB Hpc Hsp Hm Hst Hmb Hsb].
  destruct (wf_fetch s) as (i & Hi & Hib); [by split|].
  rewrite (step_fetch _ _ _ Hi).
  pose proof (wrap16_range (pc s + 1)) as Hpc1.
  destruct (vget_is_Some (memory s) (wrap16 (pc s + 1))) as [x Hx].
  { rewrite Hm. exact Hpc1. }
  pose proof (vget_byte _ _ _ Hmb Hx) as Hxb.
  pose proof (wrap16_range (wrap16 (pc s + 1) + 1)) as Hpc2.
  unfold execute.
  destruct (decode i) as [[]|];
    cbn [pc memory stack sp reg_A reg_B set_pc set_sp set_stack set_A set_B
         set_memory].
  - (* PUSH_B *)
    destruct (decide (sp s < vsize (stack s))) as [Hlt|Hge].
    + destruct (vset_wf (stack s) (sp s) (reg_B s) STACK_SIZE) as (st & -> & Hl & Hf);
        [done|rewrite Hst in Hlt; lia|done|done|].
      eexists. split; [reflexivity|]. cbn. split; [|done].
      rewrite Hst in Hlt. unfold STACK_SIZE in *.
      split; cbn [reg_A reg_B pc sp memory stack set_sp set_stack set_pc];
        try done.
      unfold STACK_SIZE. rewrite wrap16_small; lia.
    + eexists. split; [reflexivity|]. cbn. split; [|done]. by split.
  - (* POP_B *)
    destruct (decide (sp s > 0)) as [Hgt|Hle].
    + unfold STACK_SIZE in *.
      assert (wrap16 (sp s - 1) = sp s - 1) as -> by (apply wrap16_small; lia).
      destruct (vget_is_Some (stack s) (sp s - 1)) as [y Hy]; [lia|].
      rewrite Hy. eexists. split; [reflexivity|]. cbn. split; [|done].
      split; cbn; try done; [by eapply vget_byte|unfold STACK_SIZE; lia].
    + eexists. split; [reflexivity|]. cbn. split; [|done]. by split.
  - (* LOAD_A *)
    rewrite Hx. eexists. split; [reflexivity|]. cbn. split; [|done]. by split.
  - (* LOAD_B *)
    rewrite Hx. eexists. split; [reflexivity|]. cbn. split; [|done]. by split.
  - (* STORE_A *)
    rewrite Hx. cbn.
    destruct (vset_wf (memory s) x (reg_A s) MEMORY_SIZE) as (m & -> & Hl & Hf);
      [done|unfold byte, MEMORY_SIZE in *; lia|done|done|].
    eexists. split; [reflexivity|]. cbn. split; [|done]. by split.
  - (* ADD_A_B *)
    eexists. split; [reflexivity|]. cbn. split; [|done].
    split; cbn; try done. apply wrap8_byte.
  - (* SUB_A_B *)
    eexists. split; [reflexivity|]. cbn. split; [|done].
    split; cbn; try done. apply wrap8_byte.
  - (* JMP *)
    rewrite Hx. eexists. split; [reflexivity|]. cbn. split; [|done].
    split; cbn; try done. unfold byte in Hxb. lia.
  - (* HALT *)
    eexists. split; [reflexivity|]. cbn. split; [|done]. by split.
  - (* SYSCALL *)
    unfold syscallHandler, syscallHandler_run, syscall_dispatch. cbn.
    destruct (reg_A s =? PRINT_CHAR).
    { eexists. split; [reflexivity|]. cbn. split; [|done]. by split. }
    destruct (reg_A s =? READ_CHAR).
    { destruct (read_char w) as [c w'].
      eexists. split; [reflexivity|]. cbn. split; [|done].
      split; cbn; try done. apply wrap8_byte. }
    eexists. split; [reflexivity|]. cbn. split; [|done]. by split.
  - (* default *)
    eexists. split; [reflexivity|]. cbn. split; [|done]. by split.
Qed.




(** ** Loading an image (C5) *)

Lemma loadProgram_fits (program : list Z) (startAddress : Z) (s : CPU) :
  startAddress + vsize program <= vsize (memory s) →
  loadProgram program startAddress s
  = (set_memory (list_inserts (Z.to_nat startAddress) program (memory s)) s, []).
Proof.
  intros H. unfold loadProgram. destruct (decide _) as [?|_]; [lia|reflexivity].
Qed.

Lemma loadProgram_too_large (program : list Z) (startAddress : Z) (s : CPU) :
  startAddress + vsize program > vsize (memory s) →
  loadProgram program startAddress s = (s, [ErrProgramTooLarge startAddress]).
Proof.
  intros H. unfold loadProgram. destruct (decide _) as [_|?]; [reflexivity|lia].
Qed.

Lemma loadProgram_wf (program : list Z) (startAddress : Z) (s : CPU) :
  wf s → Forall byte program → wf (fst (loadProgram program startAddress s)).
Proof.
  intros Hwf Hp. unfold loadProgram. destruct (decide _); [exact Hwf|].
  destruct Hwf. split; cbn; try done.
  - unfold vsize in *. by rewrite length_inserts.
  - by apply Forall_inserts.
Qed.

Lemma set_A_wf (v : Z) (s : CPU) : byte v → wf s → wf (set_A v s).
Proof. intros Hv []. by split. Qed.

Lemma set_B_wf (v : Z) (s : CPU) : byte v → wf s → wf (set_B v s).
Proof. intros Hv []. by split. Qed.

Lemma boot_wf (image : list Z) : Forall byte image → wf (boot image).
Proof. intros H. apply loadProgram_wf; [apply CPU_new_wf | exact H]. Qed.

(** C5.  [loadProgram bytes base] copies the bytes into the cells [base] to
    [base + len - 1] when [base + len <= 65536], leaving the other cells and
    the rest of the machine as they were and reporting nothing; when
    [base + len] exceeds 65536 it reports the image as too large and leaves
    the machine, every memory cell included, unchanged. *)
Theorem loadProgram_copies_or_rejects (program : list Z) (startAddress : Z) (s : CPU) :
  wf s → 0 <= startAddress < 65536 →
  (startAddress + vsize program <= 65536 →
     ∃ m, loadProgram program startAddress s = (set_memory m s, []) ∧
          vsize m = 65536 ∧
          (∀ (i : nat) b, program !! i = Some b →
                          vget m (startAddress + Z.of_nat i) = Some b) ∧
          (∀ j, 0 <= j → j < startAddress ∨ startAddress + vsize program <= j →
                vget m j = vget (memory s) j)) ∧
  (startAddress + vsize program > 65536 →
     loadProgram program startAddress s = (s, [ErrProgramTooLarge startAddress])).
Proof.
  intros Hwf Hstart. pose proof (wf_memory_size _ Hwf) as Hm.
  unfold MEMORY_SIZE in Hm. split; intros Hfit.
  - eexists. split; [apply loadProgram_fits; lia|].
    unfold vget, vsize in *. split; [by rewrite length_inserts|]. split.
    + intros i b Hi. pose proof (lookup_lt_Some _ _ _ Hi).
      rewrite list_lookup_inserts by lia.
      rewrite <- Hi. f_equal. lia.
    + intros j Hj [Hlt|Hge].
      * apply list_lookup_inserts_lt. lia.
      * apply list_lookup_inserts_ge. lia.
  - apply loadProgram_too_large. lia.
Qed.

Lemma loadProgram_copies_or_rejects_witness :
  loadProgram [1; 2; 3] 65534 CPU_new = (CPU_new, [ErrProgramTooLarge 65534]) ∧
  ∃ m, loadProgram [1; 2] 65534 CPU_new = (set_memory m CPU_new, []) ∧
       vget m 65534 = Some 1 ∧ vget m 65535 = Some 2.
Proof.
  split.
  - apply (loadProgram_copies_or_rejects [1; 2; 3] 65534 CPU_new);
      [apply CPU_new_wf | lia | vm_compute; reflexivity].
  - destruct (loadProgram_copies_or_rejects [1; 2] 65534 CPU_new)
      as [(m & Hm & _ & Hin & _) _];
      [apply CPU_new_wf | lia | vm_compute; discriminate |].
    exists m. split; [exact Hm|]. split.
    + apply (Hin 0%nat). reflexivity.
    + apply (Hin 1%nat). reflexivity.
Defined.




(** ** The stack (C6) *)

Lemma step_LOAD_B a b p n pr m st w v :
  vget m p = Some (code LOAD_B) → vget m (wrap16 (p + 1)) = Some v →
  step (mkCPU a b p n pr m st) w
  = Some (mkOutcome true (mkCPU a v (wrap16 (wrap16 (p + 1) + 1)) n pr m st) w
            [TracePC (wrap16 (p + 1) - 1); TraceLoadB v]).
Proof.
  intros H1 H2. rewrite (step_fetch (mkCPU a b p n pr m st) _ _ H1). unfold execute.
  cbn [decode code Z.eqb Pos.eqb pc memory set_pc reg_A reg_B sp privileged stack].
  rewrite H2. reflexivity.
Qed.

Lemma step_PUSH_B a b p n pr m st w :
  vget m p = Some (code PUSH_B) → n < vsize st →
  step (mkCPU a b p n pr m st) w
  = Some (mkOutcome true
            (mkCPU a b (wrap16 (p + 1)) (wrap16 (n + 1)) pr m (<[Z.to_nat n := b]> st)) w
            [TracePC (wrap16 (p + 1) - 1); TracePush]).
Proof.
  intros H1 H2. rewrite (step_fetch (mkCPU a b p n pr m st) _ _ H1). unfold execute, vset.
  cbn [decode code Z.eqb Pos.eqb pc memory set_pc reg_A reg_B sp privileged stack].
  destruct (decide _) as [_|?]; [|lia]. reflexivity.
Qed.

Lemma step_PUSH_B_full a b p n pr m st w :
  vget m p = Some (code PUSH_B) → ¬ n < vsize st →
  step (mkCPU a b p n pr m st) w
  = Some (mkOutcome true (mkCPU a b (wrap16 (p + 1)) n pr m st) w
            [TracePC (wrap16 (p + 1) - 1)]).
Proof.
  intros H1 H2. rewrite (step_fetch (mkCPU a b p n pr m st) _ _ H1). unfold execute.
  cbn [decode code Z.eqb Pos.eqb pc memory set_pc reg_A reg_B sp privileged stack].
  destruct (decide _) as [?|_]; [lia|]. reflexivity.
Qed.

Lemma step_POP_B a b p n pr m st w y :
  vget m p = Some (code POP_B) → n > 0 → vget st (wrap16 (n - 1)) = Some y →
  step (mkCPU a b p n pr m st) w
  = Some (mkOutcome true (mkCPU a y (wrap16 (p + 1)) (wrap16 (n - 1)) pr m st) w
            [TracePC (wrap16 (p + 1) - 1); TracePop]).
Proof.
  intros H1 H2 H3. rewrite (step_fetch (mkCPU a b p n pr m st) _ _ H1). unfold execute.
  cbn [decode code Z.eqb Pos.eqb pc memory set_pc set_sp reg_A reg_B sp
       privileged stack].
  destruct (decide _) as [_|?]; [|lia]. rewrite H3. reflexivity.
Qed.

Lemma step_POP_B_empty a b p n pr m st w :
  vget m p = Some (code POP_B) → ¬ n > 0 →
  step (mkCPU a b p n pr m st) w
  = Some (mkOutcome true (mkCPU a b (wrap16 (p + 1)) n pr m st) w
            [TracePC (wrap16 (p + 1) - 1)]).
Proof.
  intros H1 H2. rewrite (step_fetch (mkCPU a b p n pr m st) _ _ H1). unfold execute.
  cbn [decode code Z.eqb Pos.eqb pc memory set_pc reg_A reg_B sp privileged stack].
  destruct (decide _) as [?|_]; [lia|]. reflexivity.
Qed.

(** Equations between wrapped program counters. *)
Ltac wrap16_eq :=
  unfold wrap16, vsize in *; cbn [length] in *;
  Z.to_euclidean_division_equations; lia.

Lemma steps_S (n : nat) (s : CPU) (w : World) (r : Outcome) :
  step s w = Some r → steps (S n) s w = steps n (next r) (world r).
Proof. intros H. cbn [steps]. rewrite H. reflexivity. Qed.

Lemma collect_B_S (n : nat) (s : CPU) (w : World) (r : Outcome) :
  step s w = Some r →
  collect_B (S n) s w
  = (bs ← collect_B n (next r) (world r); Some (reg_B (next r) :: bs)).
Proof. intros H. cbn [collect_B]. rewrite H. reflexivity. Qed.

Lemma loaded_at_lookup (prog : list Z) (s : CPU) (i : nat) (x : Z) :
  loaded_at prog s → prog !! i = Some x →
  vget (memory s) (wrap16 (pc s + Z.of_nat i)) = Some x.
Proof.
  unfold loaded_at. intros H Hi.
  apply (f_equal (λ l, l !! i)) in H.
  rewrite !list_lookup_fmap, Hi in H. cbn in H.
  rewrite lookup_seq_lt in H by (by eapply lookup_lt_Some).
  cbn in H. congruence.
Qed.

(** The pushes: each value lands in the next free cell of the stack. *)
Lemma push_phase (vs : list Z) : ∀ a b p n pr m st w,
  vsize st = 256 → 0 <= n → n + vsize vs <= 256 →
  (∀ (i : nat) x, push_code vs !! i = Some x →
                  vget m (wrap16 (p + Z.of_nat i)) = Some x) →
  ∃ b' p',
    steps (2 * length vs) (mkCPU a b (wrap16 p) n pr m st) w
    = Some (mkCPU a b' p' (n + vsize vs) pr m
                  (list_inserts (Z.to_nat n) vs st), w) ∧
    p' = wrap16 (p + 3 * vsize vs).
Proof.
  induction vs as [|v vs IH]; intros a b p n pr m st w Hst Hn Hcap Hprog.
  - exists b, (wrap16 p). unfold vsize. cbn [length steps Nat.mul].
    change (Z.of_nat 0) with 0. rewrite Z.mul_0_r, !Z.add_0_r. done.
  - unfold vsize in Hcap. cbn [length] in Hcap.
    pose proof (Hprog 0%nat _ eq_refl) as H0.
    pose proof (Hprog 1%nat _ eq_refl) as H1.
    pose proof (Hprog 2%nat _ eq_refl) as H2.
    replace (p + Z.of_nat 0) with p in H0 by lia.
    replace (wrap16 (p + Z.of_nat 1)) with (wrap16 (wrap16 p + 1)) in H1
      by wrap16_eq.
    replace (wrap16 (p + Z.of_nat 2)) with (wrap16 (wrap16 (wrap16 p + 1) + 1)) in H2
      by wrap16_eq.
    replace (2 * length (v :: vs))%nat with (S (S (2 * length vs))) by (cbn; lia).
    rewrite (steps_S _ _ _ _ (step_LOAD_B _ _ _ _ _ _ _ _ _ H0 H1)).
    cbn [next world].
    assert (n < vsize st) as Hlt by lia.
    rewrite (steps_S _ _ _ _ (step_PUSH_B _ _ _ _ _ _ _ _ H2 Hlt)).
    cbn [next world].
    rewrite (wrap16_small (n + 1)) by lia.
    destruct (IH a v (wrap16 (wrap16 (wrap16 p + 1) + 1) + 1) (n + 1) pr m
                 (<[Z.to_nat n := v]> st) w) as (b' & p' & Hsteps & Hp').
    + unfold vsize in *. by rewrite length_insert.
    + lia.
    + unfold vsize. lia.
    + intros i x Hi.
      replace (wrap16 (wrap16 (wrap16 (wrap16 p + 1) + 1) + 1 + Z.of_nat i))
        with (wrap16 (p + Z.of_nat (3 + i))).
      * apply Hprog. exact Hi.
      * symmetry. wrap16_eq.
    + exists b', p'. rewrite Hsteps. split.
      * replace (n + 1 + vsize vs) with (n + vsize (v :: vs))
          by (unfold vsize; cbn [length]; lia).
        replace (Z.to_nat (n + 1)) with (S (Z.to_nat n)) by lia.
        cbn [list_inserts].
        rewrite list_insert_inserts_lt by lia. reflexivity.
      * rewrite Hp'. unfold vsize. cbn [length]. wrap16_eq.
Qed.


(** The pops: each reads the cell below the stack pointer. *)
Lemma pop_phase (k : nat) : ∀ a b p n pr m st w,
  vsize st = 256 → Z.of_nat k <= n <= 256 →
  (∀ i : nat, (i < k)%nat → vget m (wrap16 (p + Z.of_nat i)) = Some (code POP_B)) →
  collect_B k (mkCPU a b (wrap16 p) n pr m st) w
  = Some (reverse (take k (drop (Z.to_nat n - k) st))).
Proof.
  induction k as [|k IH]; intros a b p n pr m st w Hst Hn Hprog.
  - reflexivity.
  - pose proof (Hprog 0%nat ltac:(lia)) as H0.
    replace (p + Z.of_nat 0) with p in H0 by lia.
    assert (wrap16 (n - 1) = n - 1) as Hsp by (apply wrap16_small; lia).
    destruct (vget_is_Some st (n - 1)) as [y Hy]; [lia|].
    assert (n > 0) as Hpos by lia.
    rewrite <- Hsp in Hy.
    rewrite (collect_B_S _ _ _ _ (step_POP_B _ _ _ _ _ _ _ _ _ H0 Hpos Hy)).
    cbn [next world reg_B]. rewrite Hsp.
    rewrite (IH a y (wrap16 p + 1) (n - 1) pr m st w); [|done|lia|].
    + cbn. f_equal.
      replace (Z.to_nat (n - 1) - k)%nat with (Z.to_nat n - S k)%nat by lia.
      rewrite (take_S_r _ _ y).
      * by rewrite reverse_snoc.
      * rewrite lookup_drop. rewrite Hsp in Hy. unfold vget in Hy.
        rewrite <- Hy. f_equal. lia.
    + intros i Hi.
      replace (wrap16 (wrap16 p + 1 + Z.of_nat i))
        with (wrap16 (p + Z.of_nat (S i))) by wrap16_eq.
      apply Hprog. lia.
Qed.

Lemma length_push_code (vs : list Z) : length (push_code vs) = (3 * length vs)%nat.
Proof.
  unfold push_code. induction vs as [|v vs IH]; [reflexivity|].
  csimpl in *. rewrite IH. lia.
Qed.

Lemma take_list_inserts_0 (vs st : list Z) :
  (length vs ≤ length st)%nat → take (length vs) (list_inserts 0 vs st) = vs.
Proof.
  intros H. rewrite <- (take_drop (length vs) st) at 1.
  rewrite list_inserts_0_r by (rewrite length_take; lia).
  by rewrite take_app_length.
Qed.

(** The three parts of the stack discipline. *)
Lemma push_pop_lifo (vs : list Z) (s : CPU) (w : World) :
  wf s → sp s = 0 → (length vs ≤ 256)%nat →
  loaded_at (push_pop_program vs) s →
  push_then_pop vs s w = Some (reverse vs).
Proof.
  intros Hwf Hsp Hlen Hprog.
  pose proof (wf_pc _ Hwf) as Hpc. pose proof (wf_stack_size _ Hwf) as Hst.
  unfold STACK_SIZE in Hst.
  assert (∀ (i : nat) x, push_pop_program vs !! i = Some x →
            vget (memory s) (wrap16 (pc s + Z.of_nat i)) = Some x) as Hat
    by (intros; by eapply loaded_at_lookup).
  clear Hprog Hwf. destruct s as [a b p n pr m st].
  cbn [pc sp memory stack] in *. subst n.
  unfold push_then_pop.
  replace (mkCPU a b p 0 pr m st) with (mkCPU a b (wrap16 p) 0 pr m st)
    by (by rewrite wrap16_small by lia).
  destruct (push_phase vs a b p 0 pr m st w) as (b' & p' & -> & ->);
    [done|lia|unfold vsize; lia| |].
  { intros i x Hi. apply Hat. unfold push_pop_program.
    by apply lookup_app_l_Some. }
  cbn [mbind option_bind].
  rewrite pop_phase; [|by unfold vsize in *; rewrite length_inserts
                      |unfold vsize; lia|].
  - f_equal. f_equal.
    replace (Z.to_nat (0 + vsize vs) - length vs)%nat with 0%nat
      by (unfold vsize; lia).
    rewrite drop_0. apply take_list_inserts_0. unfold vsize in Hst. lia.
  - intros i Hi.
    replace (p + 3 * vsize vs + Z.of_nat i)
      with (p + Z.of_nat (length (push_code vs) + i))
      by (rewrite length_push_code; unfold vsize; lia).
    apply Hat. unfold push_pop_program.
    rewrite lookup_app_r by lia.
    replace (length (push_code vs) + i - length (push_code vs))%nat with i by lia.
    by apply lookup_replicate_2.
Qed.

Lemma push_at_capacity (s : CPU) (w : World) :
  wf s → sp s = 256 → executes PUSH_B s →
  step s w = Some (mkOutcome true (set_pc (wrap16 (pc s + 1)) s) w
                     [TracePC (wrap16 (pc s + 1) - 1)]).
Proof.
  intros Hwf Hsp Hex. pose proof (wf_stack_size _ Hwf) as Hst.
  destruct s as [a b p n pr m st]. unfold executes in Hex. cbn in *.
  apply step_PUSH_B_full; [done|]. unfold STACK_SIZE in *. lia.
Qed.

Lemma pop_at_bottom (s : CPU) (w : World) :
  sp s = 0 → executes POP_B s →
  step s w = Some (mkOutcome true (set_pc (wrap16 (pc s + 1)) s) w
                     [TracePC (wrap16 (pc s + 1) - 1)]).
Proof.
  intros Hsp Hex.
  destruct s as [a b p n pr m st]. unfold executes in Hex. cbn in *.
  apply step_POP_B_empty; [done|]. lia.
Qed.


Lemma set_sp_wf (v : Z) (s : CPU) : 0 <= v <= 256 → wf s → wf (set_sp v s).
Proof. intros Hv []. by split. Qed.

Lemma byte_list (l : list Z) : forallb (λ z, (0 <=? z) && (z <? 256)) l = true → Forall byte l.
Proof.
  intros H. apply Forall_forall. intros x Hx%list_elem_of_In.
  rewrite forallb_forall in H. specialize (H x Hx). unfold byte. lia.
Qed.

(** C6, within the capacity of the stack.  From SP = 0, loading up to 256
    values into B and pushing each, then popping as many times, brings the
    values back into B last-in first-out.  PUSH_B at SP = 256 leaves SP, B,
    the stack and the memory as they are, and so does POP_B at SP = 0. *)
Theorem stack_discipline :
  (∀ vs s w, wf s → sp s = 0 → (length vs ≤ 256)%nat →
             loaded_at (push_pop_program vs) s →
             push_then_pop vs s w = Some (reverse vs)) ∧
  (∀ s w, wf s → sp s = 256 → executes PUSH_B s →
          ∃ r, step s w = Some r ∧ continue r = true ∧
               sp (next r) = sp s ∧ reg_B (next r) = reg_B s ∧
               stack (next r) = stack s ∧ memory (next r) = memory s) ∧
  (∀ s w, wf s → sp s = 0 → executes POP_B s →
          ∃ r, step s w = Some r ∧ continue r = true ∧
               sp (next r) = sp s ∧ reg_B (next r) = reg_B s ∧
               stack (next r) = stack s ∧ memory (next r) = memory s).
Proof.
  split; [|split].
  - apply push_pop_lifo.
  - intros s w Hwf Hsp Hex. eexists. split; [by apply push_at_capacity|].
    by cbn.
  - intros s w Hwf Hsp Hex. eexists. split; [by apply pop_at_bottom|].
    by cbn.
Qed.

Lemma stack_discipline_witness :
  push_then_pop [5; 6; 7] lifo_machine quiet = Some [7; 6; 5] ∧
  (∃ r, step full_machine quiet = Some r ∧ sp (next r) = 256 ∧ reg_B (next r) = 9) ∧
  (∃ r, step empty_machine quiet = Some r ∧ sp (next r) = 0 ∧ reg_B (next r) = 9).
Proof.
  destruct stack_discipline as (Hlifo & Hpush & Hpop).
  split; [|split].
  - apply (Hlifo [5; 6; 7] lifo_machine quiet).
    + apply boot_wf, byte_list. reflexivity.
    + reflexivity.
    + cbn. lia.
    + vm_compute. reflexivity.
  - destruct (Hpush full_machine quiet) as (r & Hr & _ & Hsp & HB & _).
    + apply set_sp_wf; [lia|]. apply set_B_wf; [unfold byte; lia|].
      apply boot_wf, byte_list. reflexivity.
    + reflexivity.
    + vm_compute. reflexivity.
    + exists r. split; [exact Hr|]. split; [exact Hsp | exact HB].
  - destruct (Hpop empty_machine quiet) as (r & Hr & _ & Hsp & HB & _).
    + apply set_B_wf; [unfold byte; lia|].
      apply boot_wf, byte_list. reflexivity.
    + reflexivity.
    + vm_compute. reflexivity.
    + exists r. split; [exact Hr|]. split; [exact Hsp | exact HB].
Defined.

(** C6 as stated, with no bound on the number of values, fails: of 257
    values the last is never pushed, so the first pop brings back the 256th
    value and not the 257th. *)
Lemma lifo_fails_beyond_capacity :
  wf overfull_machine ∧ sp overfull_machine = 0 ∧
  loaded_at (push_pop_program overfull) overfull_machine ∧
  push_then_pop overfull overfull_machine quiet = Some (replicate 257 0) ∧
  push_then_pop overfull overfull_machine quiet ≠ Some (reverse overfull).
Proof.
  assert (push_then_pop overfull overfull_machine quiet = Some (replicate 257 0))
    as Hrun by (vm_compute; reflexivity).
  split_and!.
  - apply boot_wf, byte_list. vm_compute. reflexivity.
  - vm_compute. reflexivity.
  - vm_compute. reflexivity.
  - exact Hrun.
  - rewrite Hrun. vm_compute. discriminate.
Qed.


(** ** The assembler (C7, C4) *)

(** C7.  The three lines [start: LOAD_A 5], [STORE_A 20], [JMP start]
    assemble to the bytes 03 05 05 14 20 00, and the label [start] is bound
    to address 0. *)
Theorem assemble_round_trip :
  assemble (Some round_trip_source) = ([0x03; 0x05; 0x05; 0x14; 0x20; 0x00], []) ∧
  defined_labels (getlines round_trip_source) !! "start"%string = Some 0.
Proof. split; vm_compute; reflexivity. Qed.

Lemma has_operand_opcode (token : string) :
  has_operand token = true → ∃ o, opcodeMap !! token = Some o.
Proof.
  unfold has_operand. rewrite !orb_true_iff, !String.eqb_eq.
  intros [[[H|H]|H]|H]; rewrite H; eexists; vm_compute; reflexivity.
Qed.

Lemma operand_byte_None (labels : gmap string Z) (t : string) :
  operand_byte labels t = None ↔ labels !! t = None ∧ stoi t = None.
Proof.
  unfold operand_byte. destruct (labels !! t); cbn.
  - split; [discriminate|intros [? _]; discriminate].
  - destruct (stoi t); cbn; split; try done. intros [_ ?]; discriminate.
Qed.

(** What the second loop does with a line, told by its operand token. *)
Lemma pass2_line_operand (labels : gmap string Z) (l t : string) :
  operand_of l = Some t →
  match operand_byte labels t with
  | Some b => ∃ o, pass2_line labels l = inl [code o; b]
  | None => pass2_line labels l = inr t
  end.
Proof.
  unfold operand_of, pass2_line.
  destruct (mnemonic_of l) as [[token ss]|]; [|discriminate].
  destruct (has_operand token) eqn:Hop; [|discriminate].
  intros [= <-]. destruct (has_operand_opcode _ Hop) as [o ->].
  destruct (operand_byte labels _); eauto.
Qed.

Lemma pass2_line_plain (labels : gmap string Z) (l : string) :
  operand_of l = None → ∃ bs, pass2_line labels l = inl bs.
Proof.
  unfold operand_of, pass2_line.
  destruct (mnemonic_of l) as [[token ss]|]; [|eauto].
  destruct (has_operand token); [discriminate|].
  destruct (opcodeMap !! token); eauto.
Qed.

(** The second loop either stops at the first operand that is no label and
    that [stoi] rejects, or emits bytes for every line. *)
Lemma pass2_spec (labels : gmap string Z) (lines : list string) : ∀ acc,
  (∃ t, t ∈ operand_tokens lines ∧ operand_byte labels t = None ∧
        pass2 labels lines acc = ([], [ErrInvalidOperand t])) ∨
  ((∀ t, t ∈ operand_tokens lines → is_Some (operand_byte labels t)) ∧
   ∃ bs, pass2 labels lines acc = (acc ++ bs, []) ∧
         (operand_tokens lines ≠ [] → bs ≠ [])).
Proof.
  induction lines as [|l lines IH]; intros acc.
  - right. split; [intros t Ht; inversion Ht|].
    exists []. by rewrite app_nil_r.
  - unfold operand_tokens in *. cbn [omap list_omap pass2].
    destruct (operand_of l) as [t|] eqn:Hl.
    + pose proof (pass2_line_operand labels l t Hl) as Hline.
      destruct (operand_byte labels t) as [b|] eqn:Hb.
      * destruct Hline as [o ->].
        destruct (IH (acc ++ [code o; b])) as [(t' & Ht' & Hbad & ->)|(Hall & bs & -> & _)].
        -- left. exists t'. split; [by right|done].
        -- right. split.
           ++ intros t' [->|Ht']%elem_of_cons; [by rewrite Hb|by apply Hall].
           ++ exists ([code o; b] ++ bs). split; [by rewrite app_assoc|done].
      * rewrite Hline. left. exists t. split; [by left|done].
    + destruct (pass2_line_plain labels l Hl) as [bs0 ->].
      destruct (IH (acc ++ bs0)) as [(t' & Ht' & Hbad & ->)|(Hall & bs & -> & Hne)].
      * left. by exists t'.
      * right. split; [done|].
        exists (bs0 ++ bs). split; [by rewrite app_assoc|].
        intros H. specialize (Hne H). by destruct bs0, bs.
Qed.

(** What [stoi] makes of a token that starts with digits. *)
Lemma digits_ignores_tail (ds : string) (c : ascii) (rest : string) : ∀ acc seen,
  all_digits ds = true → isdigit c = false →
  seen = true ∨ ds ≠ EmptyString →
  digits (ds +:+ String c rest) acc seen = digits ds acc seen.
Proof.
  induction ds as [|d ds IH]; intros acc seen Hall Hc Hseen.
  - destruct Hseen as [->|?]; [|done].
    change (EmptyString +:+ String c rest) with (String c rest).
    cbn [digits]. by rewrite Hc.
  - cbn [all_digits] in Hall. apply andb_true_iff in Hall as [Hd Hall].
    change (String d ds +:+ String c rest) with (String d (ds +:+ String c rest)).
    cbn [digits]. rewrite Hd. apply IH; auto.
Qed.

Lemma digit_first (d : ascii) (r : string) :
  isdigit d = true →
  skip_space (String d r) = String d r ∧
  take_sign (String d r) = (false, String d r).
Proof.
  destruct d as [[] [] [] [] [] [] [] []]; vm_compute; intros H;
    try discriminate H; split; reflexivity.
Qed.

Lemma stoi_ignores_tail (ds : string) (c : ascii) (rest : string) :
  ds ≠ EmptyString → all_digits ds = true → isdigit c = false →
  stoi (ds +:+ String c rest) = stoi ds.
Proof.
  intros Hne Hall Hc. destruct ds as [|d ds]; [done|].
  pose proof Hall as Hall'. cbn [all_digits] in Hall'.
  apply andb_true_iff in Hall' as [Hd _].
  unfold stoi.
  change (String d ds +:+ String c rest) with (String d (ds +:+ String c rest)).
  destruct (digit_first d (ds +:+ String c rest) Hd) as [-> ->].
  destruct (digit_first d ds Hd) as [-> ->].
  change (String d (ds +:+ String c rest)) with (String d ds +:+ String c rest).
  rewrite digits_ignores_tail by auto. reflexivity.
Qed.

(** C4, as the code has it.  For a source with at least one operand-bearing
    line, [assemble] returns the empty sequence exactly when some operand
    token is neither a label defined in the source nor a token that [stoi]
    accepts, and it then reports that operand.  [stoi] reads the digits a
    token starts with and ignores what follows them, so a token made of
    digits and trailing characters is taken for the number in front: the
    operand [5x] assembles as 5. *)
Theorem assemble_aborts_iff_stoi_rejects (lines : list string) :
  operand_tokens lines ≠ [] →
  (fst (assemble_lines lines) = [] ↔
     ∃ t, t ∈ operand_tokens lines ∧
          defined_labels lines !! t = None ∧ stoi t = None) ∧
  (fst (assemble_lines lines) = [] →
     ∃ t, assemble_lines lines = ([], [ErrInvalidOperand t])) ∧
  (∀ ds c rest, ds ≠ EmptyString → all_digits ds = true → isdigit c = false →
                stoi (ds +:+ String c rest) = stoi ds) ∧
  assemble_lines ["LOAD_A 5x"%string] = ([0x03; 5], []).
Proof.
  intros Hne. unfold assemble_lines, defined_labels.
  set (labels := fst (pass1 lines)).
  assert (pass2 (fst (pass1 ["LOAD_A 5x"%string])) ["LOAD_A 5x"%string] []
          = ([0x03; 5], [])) as Hex by (vm_compute; reflexivity).
  destruct (pass2_spec labels lines [])
    as [(t & Ht & Hbad & Hrun)|(Hall & bs & Hrun & Hbs)]; rewrite Hrun; cbn [fst].
  - split_and!; [|eauto|apply stoi_ignores_tail|exact Hex].
    split; [|done]. intros _. exists t. by apply operand_byte_None in Hbad.
  - specialize (Hbs Hne). split_and!; [|done|apply stoi_ignores_tail|exact Hex].
    split; [done|]. intros (t & Ht & Hl & Hs).
    destruct (Hall t Ht) as [b Hb].
    assert (operand_byte labels t = None) by (by apply operand_byte_None).
    congruence.
Qed.

Lemma assemble_aborts_iff_stoi_rejects_witness :
  fst (assemble_lines ["LOAD_A x5"%string]) = [] ↔
  ∃ t, t ∈ operand_tokens ["LOAD_A x5"%string] ∧
       defined_labels ["LOAD_A x5"%string] !! t = None ∧ stoi t = None.
Proof.
  apply (assemble_aborts_iff_stoi_rejects ["LOAD_A x5"%string]).
  vm_compute. discriminate.
Defined.

(** C4 as stated fails in both directions.  [5x] is no label and no decimal
    integer, yet [LOAD_A 5x] assembles; [99999999999] is a decimal integer,
    yet [LOAD_A 99999999999] makes [assemble] return the empty sequence. *)
Lemma assemble_accepts_trailing_characters :
  operand_tokens ["LOAD_A 5x"%string] = ["5x"%string] ∧
  defined_labels ["LOAD_A 5x"%string] !! "5x"%string = None ∧
  is_decimal_integer "5x" = false ∧
  assemble_lines ["LOAD_A 5x"%string] = ([0x03; 5], []) ∧
  operand_tokens ["LOAD_A 99999999999"%string] = ["99999999999"%string] ∧
  is_decimal_integer "99999999999" = true ∧
  assemble_lines ["LOAD_A 99999999999"%string]
  = ([], [ErrInvalidOperand "99999999999"]).
Proof. split_and!; vm_compute; reflexivity. Qed.


(** ** The compiler (C1, C10) *)

(** C1, as the code has it.  The four statements, one per line, compile (when
    [back()] of the empty operator token of [a = 3;] reads a NUL, or when
    that line is written [a = 3 ;]) to a non-empty sequence ending in HALT;
    run from address 0 it halts with memory[0x10] = 3, but with
    memory[0x11] = 18: for the operand [a] the compiler emits LOAD_A 0x10,
    which loads the address of [a], not its content.  With [back()] trapped
    the call does not return; written on one line, only [int a;] is
    compiled. *)
Theorem compiled_sum_adds_to_the_address :
  compile (Some NUL) (Some sum_source)
  = Returned sum_bytecode [LogDeclared "a" 0x10; LogDeclared "b" 0x11] ∧
  compile None (Some sum_source_spaced)
  = Returned sum_bytecode [LogDeclared "a" 0x10; LogDeclared "b" 0x11] ∧
  last sum_bytecode = Some (code HALT) ∧
  final_memory (run 7 (boot sum_bytecode) quiet []) 0x10 = Some 3 ∧
  final_memory (run 7 (boot sum_bytecode) quiet []) 0x11 = Some 18 ∧
  compile None (Some sum_source) = UndefinedBehaviour (BackOfEmpty OperatorToken) ∧
  compile None (Some sum_source_one_line) = Returned [0xFF] [LogDeclared "a" 0x10].
Proof. split_and!; vm_compute; reflexivity. Qed.

(** Every simple assignment whose line ends with its operand (so that the
    extraction of the operator token fails) takes [back()] of the empty
    operator token. *)
Lemma empty_operator_is_read (st : CState) (line token ss ss2 val1 ss3 : string)
    (target : Z) :
  read EmptyString line = (token, ss) →
  empty token = false → is_comment token = false →
  String.eqb token "int" = false →
  read EmptyString ss = ("="%string, ss2) →
  read EmptyString ss2 = (val1, ss3) →
  variables st !! token = Some target →
  fst (read EmptyString ss3) = EmptyString →
  compile_line None st line = UB (BackOfEmpty OperatorToken).
Proof.
  intros Htok Hne Hcom Hint Heq Hval Hvar Hop.
  unfold compile_line. rewrite Htok, Hne, Hcom. cbn [orb].
  rewrite Hint, Heq, Hval. cbn [String.eqb Ascii.eqb Bool.eqb negb].
  rewrite Hvar. destruct (read EmptyString ss3) as [op ss4].
  cbn [fst] in Hop. subst op. reflexivity.
Qed.

(** C10, as the code has it.  [compile] takes [back()] of an empty token in
    each of the three places: of the operator token on [a = 3;], of the
    variable name on a bare [int], of the second operand on [a = 1 +]. *)
Theorem compile_takes_back_of_empty_token :
  compile None (Some "int a;
a = 3;
") = UndefinedBehaviour (BackOfEmpty OperatorToken) ∧
  compile None (Some "int
") = UndefinedBehaviour (BackOfEmpty VarNameToken) ∧
  compile None (Some "int a;
a = 1 +
") = UndefinedBehaviour (BackOfEmpty SecondOperandToken).
Proof. split_and!; vm_compute; reflexivity. Qed.

(** ** The program counter and the memory (C3) *)



Lemma set_pc_wf (v : Z) (s : CPU) : 0 <= v < 65536 → wf s → wf (set_pc v s).
Proof. intros Hv []. by split. Qed.





(** * Further properties of the engine *)

Lemma run_S_continue (fuel : nat) (s : CPU) (w : World) (out : list event) (r : Outcome) :
  step s w = Some r → continue r = true →
  run (S fuel) s w out = run fuel (next r) (world r) (out ++ output r).
Proof. intros H Hc. cbn [run]. rewrite H, Hc. reflexivity. Qed.

Lemma run_S_halt (fuel : nat) (s : CPU) (w : World) (out : list event) (r : Outcome) :
  step s w = Some r → continue r = false →
  run (S fuel) s w out = Finished (next r) (world r) (out ++ output r).
Proof. intros H Hc. cbn [run]. rewrite H, Hc. reflexivity. Qed.

(** From a state of the class a run never indexes a vector out of range,
    and the state it halts in is a state of the class. *)
Lemma run_wf (fuel : nat) : ∀ s w out,
  wf s →
  run fuel s w out ≠ Undefined ∧
  ∀ s' w' out', run fuel s w out = Finished s' w' out' → wf s'.
Proof.
  induction fuel as [|fuel IH]; intros s w out Hwf.
  - split; [discriminate|]. intros s' w' out' H. discriminate H.
  - destruct (step_wf s w Hwf) as (r & Hr & Hwf' & _).
    destruct (continue r) eqn:Hc.
    + rewrite (run_S_continue _ _ _ _ _ Hr Hc). apply IH, Hwf'.
    + rewrite (run_S_halt _ _ _ _ _ Hr Hc). split; [discriminate|].
      intros s' w' out' [= <- _ _]. exact Hwf'.
Qed.

(** X1.  Started on a well-formed machine (byte registers, 16-bit PC, SP at
    most 256, vectors of the constructor's sizes), [run] never reads or
    writes outside the memory or the stack, whatever the program, and if it
    halts the machine is well-formed again. *)
Theorem run_keeps_machine_well_formed (fuel : nat) (s : CPU) (w : World) :
  wf s →
  run fuel s w [] ≠ Undefined ∧
  ∀ s' w' out, run fuel s w [] = Finished s' w' out →
               wf s' ∧ 0 <= sp s' <= 256 ∧ vsize (memory s') = 65536.
Proof.
  intros Hwf. destruct (run_wf fuel s w [] Hwf) as [Hu Hf].
  split; [exact Hu|]. intros s' w' out H. specialize (Hf _ _ _ H).
  split; [exact Hf|]. split; [apply Hf | apply Hf].
Qed.

Lemma run_keeps_machine_well_formed_witness :
  run 5 lifo_machine quiet [] ≠ Undefined.
Proof.
  apply (run_keeps_machine_well_formed 5 lifo_machine quiet).
  apply boot_wf, byte_list. reflexivity.
Defined.

(** What one [step] can do to the memory: nothing, or, for STORE_A, write
    A into the cell its operand byte names. *)
Lemma step_memory (s : CPU) (w : World) (r : Outcome) :
  wf s → step s w = Some r →
  memory (next r) = memory s ∨
  (executes STORE_A s ∧
   ∃ a, vget (memory s) (wrap16 (pc s + 1)) = Some a ∧ byte a ∧
        memory (next r) = <[Z.to_nat a := reg_A s]> (memory s)).
Proof.
  intros Hwf Hstep. destruct (wf_fetch s Hwf) as (i & Hi & _).
  rewrite (step_fetch _ _ _ Hi) in Hstep. unfold execute in Hstep.
  destruct (decode i) as [o|] eqn:Hd.
  - apply decode_Some in Hd. subst i.
    destruct o; cbn [pc memory stack sp reg_A reg_B set_pc] in Hstep;
      try (left; repeat case_match; simplify_option_eq; reflexivity).
    + (* STORE_A *)
      right. split; [exact Hi|].
      destruct (vget (memory s) (wrap16 (pc s + 1))) as [a|] eqn:Ha;
        [|discriminate]. cbn in Hstep.
      unfold vset in Hstep. case_decide; [|discriminate].
      cbn in Hstep. injection Hstep as <-. exists a.
      split; [reflexivity|]. split; [|reflexivity].
      eapply vget_byte; [apply Hwf|exact Ha].
    + (* SYSCALL *)
      left. unfold syscallHandler, syscallHandler_run, syscall_dispatch in Hstep.
      cbn in Hstep. repeat case_match; simplify_eq; reflexivity.
  - left. injection Hstep as <-. reflexivity.
Qed.

Lemma step_keeps_high_memory (s : CPU) (w : World) (r : Outcome) (j : Z) :
  wf s → step s w = Some r → 256 <= j →
  vget (memory (next r)) j = vget (memory s) j.
Proof.
  intros Hwf Hstep Hj.
  destruct (step_memory s w r Hwf Hstep) as [->|(_ & a & _ & Ha & ->)];
    [reflexivity|].
  unfold vget. apply list_lookup_insert_ne. unfold byte in Ha. lia.
Qed.

(** X2.  However many instructions run, no memory cell at address 256 or
    above is ever changed: the operand of STORE_A is one byte, so a program
    can only write to the first 256 cells. *)
Theorem programs_write_only_low_memory (n : nat) (s : CPU) (w : World) :
  wf s →
  ∃ s' w', steps n s w = Some (s', w') ∧
           ∀ j, 256 <= j → vget (memory s') j = vget (memory s) j.
Proof.
  revert s w. induction n as [|n IH]; intros s w Hwf.
  - exists s, w. split; reflexivity.
  - destruct (step_wf s w Hwf) as (r & Hr & Hwf' & _).
    destruct (IH (next r) (world r) Hwf') as (s' & w' & Hs & Hmem).
    exists s', w'. rewrite (steps_S _ _ _ _ Hr). split; [exact Hs|].
    intros j Hj. rewrite (Hmem j Hj).
    by apply (step_keeps_high_memory s w r j).
Qed.

Lemma programs_write_only_low_memory_witness :
  ∃ s' w', steps 4 lifo_machine quiet = Some (s', w') ∧
           ∀ j, 256 <= j → vget (memory s') j = vget (memory lifo_machine) j.
Proof.
  apply (programs_write_only_low_memory 4 lifo_machine quiet).
  apply boot_wf, byte_list. reflexivity.
Defined.

(** A fresh machine with an image loaded at 0, field by field. *)
Lemma boot_record (image : list Z) :
  vsize image <= 65536 →
  boot image = mkCPU 0 0 0 0 false
                     (list_inserts 0 image (replicate (Z.to_nat MEMORY_SIZE) 0))
                     (replicate (Z.to_nat STACK_SIZE) 0).
Proof.
  intros H. unfold boot.
  rewrite loadProgram_fits; [reflexivity|].
  rewrite (wf_memory_size _ CPU_new_wf). unfold MEMORY_SIZE. lia.
Qed.

Lemma image_lookup (image : list Z) (i : nat) (x : Z) :
  vsize image <= 65536 → image !! i = Some x →
  vget (list_inserts 0 image (replicate (Z.to_nat MEMORY_SIZE) 0)) (Z.of_nat i)
  = Some x.
Proof.
  intros H Hi. pose proof (lookup_lt_Some _ _ _ Hi) as Hlt.
  unfold vget, vsize in *. rewrite Nat2Z.id.
  rewrite list_lookup_inserts.
  - by rewrite Nat.sub_0_r.
  - lia.
  - rewrite length_replicate. unfold MEMORY_SIZE. lia.
Qed.

Lemma step_LOAD_A a b p n pr m st w v :
  vget m p = Some (code LOAD_A) → vget m (wrap16 (p + 1)) = Some v →
  step (mkCPU a b p n pr m st) w
  = Some (mkOutcome true (mkCPU v b (wrap16 (wrap16 (p + 1) + 1)) n pr m st) w
            [TracePC (wrap16 (p + 1) - 1); TraceLoadA v]).
Proof.
  intros H1 H2. rewrite (step_fetch (mkCPU a b p n pr m st) _ _ H1). unfold execute.
  cbn [decode code Z.eqb Pos.eqb pc memory set_pc reg_A reg_B sp privileged stack].
  rewrite H2. reflexivity.
Qed.

Lemma step_HALT a b p n pr m st w :
  vget m p = Some (code HALT) →
  step (mkCPU a b p n pr m st) w
  = Some (mkOutcome false (mkCPU a b (wrap16 (p + 1)) n pr m st) w
            [TracePC (wrap16 (p + 1) - 1); TraceHalt]).
Proof.
  intros H1. rewrite (step_fetch (mkCPU a b p n pr m st) _ _ H1). reflexivity.
Qed.

Lemma step_JMP a b p n pr m st w t :
  vget m p = Some (code JMP) → vget m (wrap16 (p + 1)) = Some t →
  step (mkCPU a b p n pr m st) w
  = Some (mkOutcome true (mkCPU a b t n pr m st) w
            [TracePC (wrap16 (p + 1) - 1); TraceJmp t]).
Proof.
  intros H1 H2. rewrite (step_fetch (mkCPU a b p n pr m st) _ _ H1). unfold execute.
  cbn [decode code Z.eqb Pos.eqb pc memory set_pc reg_A reg_B sp privileged stack].
  rewrite H2. reflexivity.
Qed.

Lemma step_STORE_A a b p n pr m st w t :
  vget m p = Some (code STORE_A) → vget m (wrap16 (p + 1)) = Some t →
  t < vsize m →
  step (mkCPU a b p n pr m st) w
  = Some (mkOutcome true
            (mkCPU a b (wrap16 (wrap16 (p + 1) + 1)) n pr (<[Z.to_nat t := a]> m) st) w
            [TracePC (wrap16 (p + 1) - 1); TraceStoreA t]).
Proof.
  intros H1 H2 H3. rewrite (step_fetch (mkCPU a b p n pr m st) _ _ H1).
  unfold execute, vset.
  cbn [decode code Z.eqb Pos.eqb pc memory set_pc reg_A reg_B sp privileged stack].
  rewrite H2. cbn [mbind option_bind memory set_pc].
  destruct (decide _) as [_|?]; [|lia]. reflexivity.
Qed.

Lemma step_SYSCALL_rec a b p n pr m st w :
  vget m p = Some (code SYSCALL) →
  step (mkCPU a b p n pr m st) w
  = let '(s', w', o) := syscallHandler (mkCPU a b (wrap16 (p + 1)) n pr m st) w in
    Some (mkOutcome true s' w' ([TracePC (wrap16 (p + 1) - 1)] ++ [TraceSyscall] ++ o)).
Proof.
  intros H1. rewrite (step_fetch (mkCPU a b p n pr m st) _ _ H1). reflexivity.
Qed.

(** X3.  For every byte [b], the image [LOAD_A b; HALT] loaded at 0 on a
    fresh machine: the first [step] puts [b] into A and asks to go on, the
    second returns false and leaves [b] in A. *)
Theorem load_immediate_then_halt (b : Z) (w : World) :
  byte b →
  ∃ r1 r2,
    step (boot [code LOAD_A; b; code HALT]) w = Some r1 ∧
    continue r1 = true ∧ reg_A (next r1) = b ∧
    step (next r1) (world r1) = Some r2 ∧
    continue r2 = false ∧ reg_A (next r2) = b ∧ pc (next r2) = 3.
Proof.
  intros _.
  assert (vsize [code LOAD_A; b; code HALT] <= 65536) as Hsz
    by (unfold vsize; cbn [length]; lia).
  rewrite (boot_record _ Hsz).
  pose proof (image_lookup _ 0%nat _ Hsz eq_refl) as H0.
  pose proof (image_lookup _ 1%nat _ Hsz eq_refl) as H1.
  pose proof (image_lookup _ 2%nat _ Hsz eq_refl) as H2.
  set (m := list_inserts 0 _ _) in *.
  pose proof (step_LOAD_A 0 0 0 0 false m (replicate (Z.to_nat STACK_SIZE) 0) w b
                H0 H1) as E1.
  change (wrap16 (wrap16 (0 + 1) + 1)) with 2 in E1.
  pose proof (step_HALT b 0 2 0 false m (replicate (Z.to_nat STACK_SIZE) 0) w H2)
    as E2.
  eexists _, _. split; [exact E1|].
  split; [reflexivity|]. split; [reflexivity|]. split; [exact E2|].
  split_and!; reflexivity.
Qed.

Lemma load_immediate_then_halt_witness :
  ∃ r1 r2,
    step (boot [code LOAD_A; 200; code HALT]) quiet = Some r1 ∧
    continue r1 = true ∧ reg_A (next r1) = 200 ∧
    step (next r1) (world r1) = Some r2 ∧
    continue r2 = false ∧ reg_A (next r2) = 200 ∧ pc (next r2) = 3.
Proof.
  apply (load_immediate_then_halt 200 quiet). unfold byte. lia.
Defined.

(** X4.  The program counter wraps at 65536 inside an instruction: with
    LOAD_A in the last cell of the memory, the operand is the byte of cell
    0 and the next instruction is fetched from cell 1. *)
Theorem operand_fetch_wraps_around (s : CPU) (w : World) (v : Z) :
  pc s = 65535 → executes LOAD_A s → vget (memory s) 0 = Some v →
  step s w = Some (mkOutcome true (set_A v (set_pc 1 s)) w
                     [TracePC (-1); TraceLoadA v]).
Proof.
  intros Hpc Hex H0. destruct s as [a b p n pr m st].
  unfold executes in Hex. cbn [pc memory] in *. subst p.
  apply (step_LOAD_A a b 65535 n pr m st w v Hex H0).
Qed.

Lemma operand_fetch_wraps_around_witness :
  ∃ r, step wrap_machine quiet = Some r ∧ reg_A (next r) = 42 ∧ pc (next r) = 1.
Proof.
  eexists. split.
  - apply (operand_fetch_wraps_around wrap_machine quiet 42);
      vm_compute; reflexivity.
  - split; reflexivity.
Defined.

(** X5.  A JMP whose operand is its own address never lets [run] return:
    whatever the bound on the number of steps, the bound is used up. *)
Theorem jump_to_self_never_halts (s : CPU) (w : World) :
  executes JMP s → vget (memory s) (wrap16 (pc s + 1)) = Some (pc s) →
  ∀ fuel out, run fuel s w out = OutOfFuel.
Proof.
  intros Hex Hop. destruct s as [a b p n pr m st].
  unfold executes in Hex. cbn [pc memory] in *.
  pose proof (step_JMP a b p n pr m st w p Hex Hop) as Hstep.
  induction fuel as [|fuel IH]; intros out; [reflexivity|].
  rewrite (run_S_continue _ _ _ _ _ Hstep eq_refl). apply IH.
Qed.

Lemma jump_to_self_never_halts_witness :
  run 1000 spin_machine quiet [] = OutOfFuel.
Proof.
  apply (jump_to_self_never_halts spin_machine quiet); vm_compute; reflexivity.
Defined.

Lemma syscall_read_char a b p n pr m st input u c rest :
  a = READ_CHAR → skipws input = c :: rest →
  syscallHandler (mkCPU a b p n pr m st) (mkWorld input u)
  = (mkCPU a (wrap8 c) p n false m st, mkWorld rest u, []).
Proof.
  intros -> Hin. unfold syscallHandler, syscallHandler_run, syscall_dispatch, read_char.
  cbn [reg_A reg_B set_privileged cin uninit pc sp memory stack privileged].
  change (READ_CHAR =? PRINT_CHAR) with false.
  change (READ_CHAR =? READ_CHAR) with true.
  cbn iota. rewrite Hin. reflexivity.
Qed.

Lemma syscall_print_char a b p n pr m st w :
  a = PRINT_CHAR →
  syscallHandler (mkCPU a b p n pr m st) w
  = (mkCPU a b p n false m st, w, [PrintChar b]).
Proof. intros ->. reflexivity. Qed.

Lemma run_echo (k : nat) (input rest : list Z) (u c : Z) :
  skipws input = c :: rest → byte c →
  run (5 + k) (boot echo_program) (mkWorld input u) []
  = Finished (set_pc 7 (set_B c (set_A 1 (boot echo_program))))
             (mkWorld rest u)
             [TracePC 0; TraceLoadA 2; TracePC 2; TraceSyscall;
              TracePC 3; TraceLoadA 1; TracePC 5; TraceSyscall; PrintChar c;
              TracePC 6; TraceHalt].
Proof.
  intros Hin Hc. cbn [Nat.add].
  assert (vsize echo_program <= 65536) as Hsz by (vm_compute; discriminate).
  rewrite (boot_record _ Hsz).
  pose proof (image_lookup _ 0%nat _ Hsz eq_refl) as H0.
  pose proof (image_lookup _ 1%nat _ Hsz eq_refl) as H1.
  pose proof (image_lookup _ 2%nat _ Hsz eq_refl) as H2.
  pose proof (image_lookup _ 3%nat _ Hsz eq_refl) as H3.
  pose proof (image_lookup _ 4%nat _ Hsz eq_refl) as H4.
  pose proof (image_lookup _ 5%nat _ Hsz eq_refl) as H5.
  pose proof (image_lookup _ 6%nat _ Hsz eq_refl) as H6.
  set (m := list_inserts 0 _ _) in *.
  set (st := replicate (Z.to_nat STACK_SIZE) 0).
  assert (wrap8 c = c) as Hw by (unfold wrap8; apply Z.mod_small; exact Hc).
  rewrite (run_S_continue _ _ _ _ _ (step_LOAD_A 0 0 0 0 false m st _ _ H0 H1) eq_refl).
  cbn [next world output app].
  change (wrap16 (wrap16 (0 + 1) + 1)) with 2.
  pose proof (step_SYSCALL_rec READ_CHAR 0 2 0 false m st (mkWorld input u) H2) as E2.
  rewrite (syscall_read_char READ_CHAR 0 (wrap16 (2 + 1)) 0 false m st input u c rest
             eq_refl Hin), Hw in E2.
  rewrite (run_S_continue _ _ _ _ _ E2 eq_refl).
  cbn [next world output app].
  change (wrap16 (2 + 1)) with 3.
  rewrite (run_S_continue _ _ _ _ _ (step_LOAD_A _ c 3 0 false m st _ _ H3 H4) eq_refl).
  cbn [next world output app].
  change (wrap16 (wrap16 (3 + 1) + 1)) with 5.
  pose proof (step_SYSCALL_rec PRINT_CHAR c 5 0 false m st (mkWorld rest u) H5) as E4.
  rewrite (syscall_print_char PRINT_CHAR c (wrap16 (5 + 1)) 0 false m st
             (mkWorld rest u) eq_refl) in E4.
  rewrite (run_S_continue _ _ _ _ _ E4 eq_refl).
  cbn [next world output app].
  change (wrap16 (5 + 1)) with 6.
  rewrite (run_S_halt _ _ _ _ _ (step_HALT _ c 6 0 false m st _ H6) eq_refl).
  reflexivity.
Qed.


(** X6.  Reading then printing: on a fresh machine the image
    [LOAD_A 2; SYSCALL; LOAD_A 1; SYSCALL; HALT] takes the first character
    of the input that is not white space, leaves it in B, prints it, and
    halts after five steps; the input behind that character is left
    unread. *)
Theorem echo_prints_first_visible_character
    (k : nat) (input rest : list Z) (u c : Z) :
  skipws input = c :: rest → byte c →
  run (5 + k) (boot echo_program) (mkWorld input u) []
  = Finished (set_pc 7 (set_B c (set_A 1 (boot echo_program))))
             (mkWorld rest u)
             [TracePC 0; TraceLoadA 2; TracePC 2; TraceSyscall;
              TracePC 3; TraceLoadA 1; TracePC 5; TraceSyscall; PrintChar c;
              TracePC 6; TraceHalt].
Proof. exact (run_echo k input rest u c). Qed.

Lemma echo_prints_first_visible_character_witness :
  run 5 (boot echo_program) (mkWorld [32; 10; 65; 66] 0) []
  = Finished (set_pc 7 (set_B 65 (set_A 1 (boot echo_program))))
             (mkWorld [66] 0)
             [TracePC 0; TraceLoadA 2; TracePC 2; TraceSyscall;
              TracePC 3; TraceLoadA 1; TracePC 5; TraceSyscall; PrintChar 65;
              TracePC 6; TraceHalt].
Proof.
  apply (echo_prints_first_visible_character 0 [32; 10; 65; 66] [66] 0 65).
  - reflexivity.
  - unfold byte. lia.
Defined.

(** * The hex loader *)

Lemma skip_space_length (ss : string) :
  (String.length (skip_space ss) ≤ String.length ss)%nat.
Proof.
  induction ss as [|c ss IH]; cbn [skip_space String.length]; [lia|].
  destruct (isspace c); cbn [String.length]; lia.
Qed.

Lemma skip_space_head (ss : string) (c : ascii) (rest : string) :
  skip_space ss = String c rest → isspace c = false.
Proof.
  induction ss as [|d ss IH]; cbn [skip_space]; [discriminate|].
  destruct (isspace d) eqn:Hd; [exact IH|]. intros [= <- _]. exact Hd.
Qed.

Lemma take_word_length (ss t r : string) :
  take_word ss = (t, r) → (String.length r ≤ String.length ss)%nat.
Proof.
  revert t r. induction ss as [|c ss IH]; intros t r; cbn [take_word].
  - intros [= <- <-]. cbn. lia.
  - destruct (isspace c).
    + intros [= <- <-]. lia.
    + destruct (take_word ss) as [t' r'] eqn:Htw. intros [= <- <-].
      specialize (IH _ _ eq_refl). cbn [String.length]. lia.
Qed.

(** An extraction delivers a word and consumes at least one character. *)
Lemma extract_Some (ss t r : string) :
  extract ss = Some (t, r) →
  is_word t = true ∧ (String.length r < String.length ss)%nat.
Proof.
  unfold extract. pose proof (skip_space_length ss) as Hlen.
  destruct (skip_space ss) as [|c rest] eqn:Hsk; [discriminate|].
  pose proof (skip_space_head _ _ _ Hsk) as Hc.
  cbn [take_word]. rewrite Hc.
  destruct (take_word rest) as [t' r'] eqn:Htw. intros [= <- <-].
  pose proof (take_word_length _ _ _ Htw) as Hr.
  cbn [String.length] in Hlen. split; [|lia].
  unfold is_word. cbn [empty negb no_space andb]. rewrite Hc. cbn [negb andb].
  clear -Htw. revert t' r' Htw.
  induction rest as [|d rest IH]; intros t' r'; cbn [take_word].
  - intros [= <- _]. reflexivity.
  - destruct (isspace d) eqn:Hd; [intros [= <- _]; reflexivity|].
    destruct (take_word rest) as [t'' r''] eqn:Htw. intros [= <- <-].
    cbn [no_space]. rewrite Hd. cbn [negb andb]. eapply IH. reflexivity.
Qed.

(** With more iterations allowed than the string has characters, the
    bound plays no part. *)
Lemma hex_loop_fuel (f1 : nat) : ∀ f2 ss program log,
  (String.length ss < f1)%nat → (String.length ss < f2)%nat →
  hex_loop f1 ss program log = hex_loop f2 ss program log.
Proof.
  induction f1 as [|f1 IH]; intros f2 ss program log H1 H2; [lia|].
  destruct f2 as [|f2]; [lia|]. cbn [hex_loop].
  destruct (extract ss) as [[t r]|] eqn:Hex; [|reflexivity].
  destruct (extract_Some _ _ _ Hex) as [_ Hlen].
  destruct (hex_byte t); apply IH; lia.
Qed.

Lemma hex_loop_acc (f : nat) : ∀ ss program log,
  hex_loop f ss program log
  = (λ '(p, l), (program ++ p, log ++ l)) <$> hex_loop f ss [] [].
Proof.
  induction f as [|f IH]; intros ss program log; [reflexivity|].
  cbn [hex_loop]. destruct (extract ss) as [[t r]|].
  - destruct (hex_byte t) as [v|d].
    + rewrite (IH r (program ++ [v]) log), (IH r ([] ++ [v]) []).
      destruct (hex_loop f r [] []) as [[p l]|]; cbn; [|reflexivity].
      by rewrite <- app_assoc.
    + rewrite (IH r program (log ++ [d])), (IH r [] ([] ++ [d])).
      destruct (hex_loop f r [] []) as [[p l]|]; cbn; [|reflexivity].
      by rewrite <- app_assoc.
  - cbn. by rewrite !app_nil_r.
Qed.

Lemma hex_loop_returns (f : nat) : ∀ ss program log,
  (String.length ss < f)%nat → Forall byte program →
  ∃ p l, hex_loop f ss program log = Some (p, l) ∧ Forall byte p.
Proof.
  induction f as [|f IH]; intros ss program log Hf Hp; [lia|].
  cbn [hex_loop]. destruct (extract ss) as [[t r]|] eqn:Hex; [|eauto].
  destruct (extract_Some _ _ _ Hex) as [_ Hlen].
  unfold hex_byte. destruct (stoi16 t) as [v|]; [|apply IH; [lia|done]].
  destruct (Z.leb_spec 0 v), (Z.leb_spec v 255); cbn [andb];
    try (apply IH; [lia|done]).
  apply IH; [lia|]. apply Forall_app. split; [done|].
  apply Forall_singleton. unfold byte. lia.
Qed.

Lemma hex_loop_blank (f : nat) (ss : string) (program : list Z) (log : list hdiag) :
  skip_space ss = EmptyString →
  hex_loop (S f) ss program log = Some (program, log).
Proof. intros H. cbn [hex_loop]. unfold extract. by rewrite H. Qed.

(** X7.  [parseHexProgram] always returns: a token that is no hexadecimal
    number, or one outside 0..255, is reported and passed over.  Every
    byte of the result is in 0..255, and a text of white space only gives
    the empty program without any report. *)
Theorem parseHexProgram_returns_bytes (hexString : string) :
  (∃ program log, parseHexProgram hexString = Some (program, log) ∧
                  Forall byte program) ∧
  (skip_space hexString = EmptyString →
   parseHexProgram hexString = Some ([], [])).
Proof.
  split.
  - apply hex_loop_returns; [lia|constructor].
  - apply hex_loop_blank.
Qed.

Lemma skip_space_word (t r : string) :
  is_word t = true → skip_space (t +:+ r) = t +:+ r.
Proof.
  destruct t as [|c t]; [discriminate|].
  unfold is_word. cbn [empty negb no_space andb].
  intros [Hc _]%andb_true_iff. apply negb_true_iff in Hc.
  change (String c t +:+ r) with (String c (t +:+ r)).
  cbn [skip_space]. by rewrite Hc.
Qed.

Lemma take_word_word (t r : string) :
  no_space t = true → take_word (t +:+ String " "%char r) = (t, String " "%char r).
Proof.
  induction t as [|c t IH]; intros H.
  - reflexivity.
  - cbn [no_space] in H. apply andb_true_iff in H as [Hc Ht].
    apply negb_true_iff in Hc.
    change (String c t +:+ String " "%char r)
      with (String c (t +:+ String " "%char r)).
    cbn [take_word]. rewrite Hc, (IH Ht). reflexivity.
Qed.

Lemma extract_word (t r : string) :
  is_word t = true →
  extract (t +:+ String " "%char r) = Some (t, String " "%char r).
Proof.
  intros H. unfold extract. rewrite (skip_space_word _ _ H).
  pose proof H as H'. unfold is_word in H'. apply andb_true_iff in H' as [Hne Hns].
  destruct t as [|c t]; [discriminate|].
  change (String c t +:+ String " "%char r)
    with (String c (t +:+ String " "%char r)).
  cbn iota.
  change (String c (t +:+ String " "%char r))
    with (String c t +:+ String " "%char r).
  by rewrite take_word_word.
Qed.

Lemma extract_space (r : string) : extract (String " "%char r) = extract r.
Proof. reflexivity. Qed.

Lemma length_append (a b : string) :
  String.length (a +:+ b) = (String.length a + String.length b)%nat.
Proof.
  induction a as [|c a IH]; [reflexivity|].
  change (String c a +:+ b) with (String c (a +:+ b)).
  cbn [String.length]. by rewrite IH.
Qed.

(** The first token of a text and the rest of it are parsed apart. *)
Lemma parseHexProgram_cons (t rest : string) :
  is_word t = true →
  parseHexProgram (t +:+ String " "%char rest)
  = '(p, l) ← parseHexProgram rest;
    Some (match hex_byte t with
          | inl v => (v :: p, l)
          | inr d => (p, d :: l)
          end).
Proof.
  intros Hw.
  assert (∀ n p l, (String.length rest < S n)%nat →
            hex_loop (S n) (String " "%char rest) p l
            = (λ '(p', l'), (p ++ p', l ++ l')) <$> parseHexProgram rest) as Hsp.
  { intros n p l Hn. unfold parseHexProgram. rewrite <- hex_loop_acc.
    cbn [hex_loop]. rewrite extract_space.
    destruct (extract rest) as [[t' r']|] eqn:Hex; [|reflexivity].
    destruct (extract_Some _ _ _ Hex) as [_ Hlen].
    destruct (hex_byte t'); apply hex_loop_fuel; lia. }
  unfold parseHexProgram at 1.
  rewrite length_append. cbn [String.length hex_loop].
  rewrite (extract_word _ _ Hw).
  replace (String.length t + S (String.length rest))%nat
    with (S (String.length t + String.length rest)) by lia.
  destruct (hex_byte t) as [v|d]; rewrite Hsp by lia;
    by destruct (parseHexProgram rest) as [[p l]|].
Qed.

(** X8.  An invalid token does not end the parse: the first token of a
    text contributes its byte, or its report, and the text behind it is
    parsed as if it stood alone. *)
Theorem parseHexProgram_token_by_token (t rest : string) :
  is_word t = true →
  parseHexProgram (t +:+ String " "%char rest)
  = '(p, l) ← parseHexProgram rest;
    Some (match hex_byte t with
          | inl v => (v :: p, l)
          | inr d => (p, d :: l)
          end).
Proof. apply parseHexProgram_cons. Qed.

Lemma parseHexProgram_token_by_token_witness :
  parseHexProgram ("zz" +:+ String " "%char "0a ff")
  = '(p, l) ← parseHexProgram "0a ff";
    Some (match hex_byte "zz" with
          | inl v => (v :: p, l)
          | inr d => (p, d :: l)
          end).
Proof. apply (parseHexProgram_token_by_token "zz" "0a ff"). reflexivity. Defined.

(** Each byte, printed in hexadecimal, is a token that reads back as the
    byte. *)
Lemma hex_text_reads_back (b : Z) :
  byte b → is_word (hex_text b) = true ∧ hex_byte (hex_text b) = inl b.
Proof.
  intros Hb.
  assert (forallb (λ n, is_word (hex_text (Z.of_nat n))
                        && match hex_byte (hex_text (Z.of_nat n)) with
                           | inl v => v =? Z.of_nat n
                           | inr _ => false
                           end)
                  (seq 0 256) = true) as Hall by (vm_compute; reflexivity).
  rewrite forallb_forall in Hall. specialize (Hall (Z.to_nat b)).
  rewrite Z2Nat.id in Hall by (unfold byte in Hb; lia).
  destruct (andb_prop _ _ (Hall ltac:(apply in_seq; unfold byte in Hb; lia)))
    as [Hw Hd].
  split; [exact Hw|].
  destruct (hex_byte (hex_text b)) as [v|]; [|discriminate].
  apply Z.eqb_eq in Hd. by subst v.
Qed.

(** X9.  What the machine prints in hexadecimal can be loaded again: for
    every list of bytes, the bytes printed as [hex] prints them and
    separated by spaces parse back to the same list, without any report. *)
Theorem hex_print_then_parse (bs : list Z) :
  Forall byte bs → parseHexProgram (hex_line bs) = Some (bs, []).
Proof.
  induction 1 as [|b bs Hb _ IH]; [reflexivity|].
  destruct (hex_text_reads_back b Hb) as [Hw Hv].
  cbn [hex_line foldr]. fold (hex_line bs).
  rewrite (parseHexProgram_cons _ _ Hw), IH, Hv. reflexivity.
Qed.

Lemma hex_print_then_parse_witness :
  parseHexProgram (hex_line [3; 10; 255]) = Some ([3; 10; 255], []).
Proof.
  apply (hex_print_then_parse [3; 10; 255]).
  repeat constructor; unfold byte; lia.
Defined.

(** * The two passes of the assembler *)

(** One iteration of the first loop, told by [label_of] and [line_size]. *)
Lemma pass1_line_spec (labels : gmap string Z) (a : Z) (l : string) :
  0 <= a < 65536 →
  pass1_line (labels, a) l
  = (match label_of l with
     | Some L => <[L := a]> labels
     | None => labels
     end,
     wrap16 (a + line_size l)).
Proof.
  intros Ha. unfold pass1_line, label_of, line_size, mnemonic_of.
  destruct (first_token l) as [[token ss]|];
    [|by rewrite Z.add_0_r, wrap16_small].
  destruct (is_label token).
  - destruct (read token ss) as [token' ss']. cbn [fst].
    destruct (opcodeMap !! token');
      [|by rewrite Z.add_0_r, wrap16_small].
    destruct (has_operand token'); f_equal; wrap16_eq.
  - destruct (opcodeMap !! token);
      [|by rewrite Z.add_0_r, wrap16_small].
    destruct (has_operand token); f_equal; wrap16_eq.
Qed.

Lemma pass1_fold (lines : list string) : ∀ labels a,
  0 <= a < 65536 →
  snd (foldl pass1_line (labels, a) lines) = wrap16 (a + code_size lines).
Proof.
  induction lines as [|l lines IH]; intros labels a Ha; cbn [foldl code_size foldr].
  - cbn [snd]. by rewrite Z.add_0_r, wrap16_small.
  - rewrite (pass1_line_spec _ _ _ Ha), IH by apply wrap16_range.
    fold (code_size lines). wrap16_eq.
Qed.

Lemma pass1_labels_later (post : list string) (L : string) : ∀ labels a,
  0 <= a < 65536 →
  (∀ l', l' ∈ post → label_of l' ≠ Some L) →
  fst (foldl pass1_line (labels, a) post) !! L = labels !! L.
Proof.
  induction post as [|l post IH]; intros labels a Ha Hpost; [reflexivity|].
  cbn [foldl]. rewrite (pass1_line_spec _ _ _ Ha).
  rewrite IH; [|apply wrap16_range|intros l' Hl'; apply Hpost; by right].
  specialize (Hpost l ltac:(by left)).
  destruct (label_of l) as [L'|]; [|reflexivity].
  apply lookup_insert_ne. congruence.
Qed.

Lemma pass1_label (pre : list string) (l : string) (post : list string) (L : string) :
  ∀ labels a,
  0 <= a < 65536 →
  label_of l = Some L →
  (∀ l', l' ∈ post → label_of l' ≠ Some L) →
  fst (foldl pass1_line (labels, a) (pre ++ l :: post)) !! L
  = Some (wrap16 (a + code_size pre)).
Proof.
  induction pre as [|l0 pre IH]; intros labels a Ha Hl Hpost.
  - cbn [app foldl code_size foldr]. rewrite (pass1_line_spec _ _ _ Ha), Hl.
    rewrite pass1_labels_later; [|apply wrap16_range|done].
    rewrite lookup_insert_eq. by rewrite Z.add_0_r, wrap16_small.
  - cbn [app foldl code_size foldr]. fold (code_size pre).
    rewrite (pass1_line_spec _ _ _ Ha).
    rewrite IH; [|apply wrap16_range|done|done]. f_equal. wrap16_eq.
Qed.

Lemma code_byte (o : OpCode) : byte (code o).
Proof. destruct o; unfold byte; cbn; lia. Qed.

(** One iteration of the second loop emits [line_size] bytes. *)
Lemma pass2_line_size (labels : gmap string Z) (l : string) (bs : list Z) :
  pass2_line labels l = inl bs → vsize bs = line_size l ∧ Forall byte bs.
Proof.
  unfold pass2_line, line_size.
  destruct (mnemonic_of l) as [[token ss]|]; [|intros [= <-]; by split].
  destruct (opcodeMap !! token) as [o|]; [|intros [= <-]; by split].
  pose proof (code_byte o) as Ho.
  destruct (has_operand token).
  - destruct (operand_byte labels (fst (read EmptyString ss))) as [b|] eqn:Hb;
      [|discriminate].
    intros [= <-]. split; [reflexivity|].
    assert (byte b).
    { unfold operand_byte in Hb.
      destruct (labels !! _); [injection Hb as <-; apply wrap8_byte|].
      destruct (stoi _); [injection Hb as <-; apply wrap8_byte|discriminate]. }
    apply Forall_cons. split; [done|]. by apply Forall_singleton.
  - intros [= <-]. split; [reflexivity|]. by apply Forall_singleton.
Qed.

Lemma pass2_emitted (labels : gmap string Z) (lines : list string) : ∀ acc,
  pass2 labels lines acc
  = match emitted labels lines with
    | inl bs => (acc ++ bs, [])
    | inr e => ([], [ErrInvalidOperand e])
    end.
Proof.
  induction lines as [|l lines IH]; intros acc; cbn [pass2 emitted].
  - by rewrite app_nil_r.
  - destruct (pass2_line labels l) as [b0|e]; [|reflexivity].
    rewrite IH. destruct (emitted labels lines); [|reflexivity].
    by rewrite app_assoc.
Qed.

Lemma emitted_app (labels : gmap string Z) (pre post : list string) (bytes : list Z) :
  emitted labels (pre ++ post) = inl bytes →
  ∃ b1 b2, emitted labels pre = inl b1 ∧ emitted labels post = inl b2 ∧
           bytes = b1 ++ b2.
Proof.
  revert bytes. induction pre as [|l pre IH]; intros bytes; cbn [app emitted].
  - intros H. by exists [], bytes.
  - destruct (pass2_line labels l) as [b0|e]; [|discriminate].
    destruct (emitted labels (pre ++ post)) as [bs|e]; [|discriminate].
    intros [= <-]. destruct (IH bs eq_refl) as (b1 & b2 & -> & -> & ->).
    exists (b0 ++ b1), b2. by rewrite app_assoc.
Qed.

Lemma emitted_size (labels : gmap string Z) (lines : list string) (bs : list Z) :
  emitted labels lines = inl bs → vsize bs = code_size lines ∧ Forall byte bs.
Proof.
  revert bs. induction lines as [|l lines IH]; intros bs; cbn [emitted code_size foldr].
  - intros [= <-]. by split.
  - destruct (pass2_line labels l) as [b0|e] eqn:Hl; [|discriminate].
    destruct (emitted labels lines) as [bs'|e]; [|discriminate].
    intros [= <-]. destruct (pass2_line_size _ _ _ Hl) as [Hs Hb].
    destruct (IH bs' eq_refl) as [Hs' Hb']. split.
    + fold (code_size lines). rewrite <- Hs, <- Hs'. unfold vsize.
      rewrite length_app. lia.
    + by apply Forall_app.
Qed.

Lemma assemble_lines_emitted (lines : list string) (bytes : list Z) :
  assemble_lines lines = (bytes, []) →
  emitted (defined_labels lines) lines = inl bytes.
Proof.
  unfold assemble_lines, defined_labels. rewrite pass2_emitted.
  destruct (emitted _ lines); [|discriminate]. by intros [= <-].
Qed.

(** X10.  The two passes agree: when [assemble] does not stop at an
    operand, the address counter of the first pass ends at the number of
    bytes the second pass emitted (modulo 65536, the counter being 16 bits
    wide), and every emitted byte is in 0..255. *)
Theorem assembler_passes_agree (lines : list string) (bytes : list Z) :
  assemble_lines lines = (bytes, []) →
  snd (pass1 lines) = wrap16 (vsize bytes) ∧ Forall byte bytes.
Proof.
  intros H%assemble_lines_emitted.
  destruct (emitted_size _ _ _ H) as [Hs Hb]. split; [|exact Hb].
  unfold pass1, USER_PROGRAM_START_ADDRESS. rewrite pass1_fold by lia.
  by rewrite Hs.
Qed.

Lemma assembler_passes_agree_witness :
  snd (pass1 (getlines round_trip_source)) = wrap16 (vsize [3; 5; 5; 20; 32; 0]).
Proof.
  apply (assembler_passes_agree (getlines round_trip_source) [3; 5; 5; 20; 32; 0]).
  vm_compute. reflexivity.
Defined.

(** X11.  A label is bound to the place of its line in the output: when
    [assemble] does not stop at an operand, the address of a label (its last
    definition) is the number of bytes emitted for the lines in front of
    the line that defines it, modulo 65536; lines behind it play no part,
    so forward references resolve like backward ones. *)
Theorem label_is_offset_of_its_line
    (pre : list string) (l : string) (post : list string) (L : string)
    (bytes : list Z) :
  label_of l = Some L →
  (∀ l', l' ∈ post → label_of l' ≠ Some L) →
  assemble_lines (pre ++ l :: post) = (bytes, []) →
  ∃ b1 b2,
    bytes = b1 ++ b2 ∧
    pass2 (defined_labels (pre ++ l :: post)) pre [] = (b1, []) ∧
    pass2 (defined_labels (pre ++ l :: post)) (l :: post) [] = (b2, []) ∧
    defined_labels (pre ++ l :: post) !! L = Some (wrap16 (vsize b1)).
Proof.
  intros Hl Hpost H%assemble_lines_emitted.
  destruct (emitted_app _ _ _ _ H) as (b1 & b2 & H1 & H2 & ->).
  exists b1, b2. rewrite !pass2_emitted, H1, H2.
  split_and!; try reflexivity.
  destruct (emitted_size _ _ _ H1) as [-> _].
  unfold defined_labels, pass1, USER_PROGRAM_START_ADDRESS.
  rewrite (pass1_label pre l post L) by (done || lia). reflexivity.
Qed.

Lemma label_is_offset_of_its_line_witness :
  ∃ b1 b2,
    [3; 5; 32; 4; 255; 16] = b1 ++ b2 ∧
    pass2 (defined_labels (["LOAD_A 5"; "JMP end"] ++ "end: HALT" :: ["ADD_A_B"]))
          ["LOAD_A 5"; "JMP end"]%string [] = (b1, []) ∧
    pass2 (defined_labels (["LOAD_A 5"; "JMP end"] ++ "end: HALT" :: ["ADD_A_B"]))
          ("end: HALT" :: ["ADD_A_B"])%string [] = (b2, []) ∧
    defined_labels (["LOAD_A 5"; "JMP end"] ++ "end: HALT" :: ["ADD_A_B"])
      !! "end"%string = Some (wrap16 (vsize b1)).
Proof.
  apply (label_is_offset_of_its_line ["LOAD_A 5"; "JMP end"]%string
           "end: HALT" ["ADD_A_B"]%string "end" [3; 5; 32; 4; 255; 16]).
  - reflexivity.
  - intros l' ->%list_elem_of_singleton. vm_compute. discriminate.
  - vm_compute. reflexivity.
Defined.

Lemma take_word_end (t : string) :
  no_space t = true → take_word t = (t, EmptyString).
Proof.
  induction t as [|c t IH]; intros H; [reflexivity|].
  cbn [no_space] in H. apply andb_true_iff in H as [Hc Ht].
  apply negb_true_iff in Hc. cbn [take_word]. by rewrite Hc, (IH Ht).
Qed.

(** A word behind one space is what [>>] delivers, whole. *)
Lemma read_last_word (old t : string) :
  is_word t = true → read old (String " "%char t) = (t, EmptyString).
Proof.
  intros H. unfold read. change (skip_space (String " "%char t)) with (skip_space t).
  pose proof (skip_space_word t EmptyString H) as Hs.
  assert (∀ s, s +:+ EmptyString = s) as Hnil.
  { induction s as [|c s IH]; [reflexivity|].
    change (String c s +:+ EmptyString) with (String c (s +:+ EmptyString)).
    by rewrite IH. }
  rewrite Hnil in Hs. rewrite Hs.
  unfold is_word in H. apply andb_true_iff in H as [Hne Hns].
  destruct t as [|c t]; [discriminate|]. by apply take_word_end.
Qed.

Lemma run_load_halt (b : Z) (w : World) :
  run 2 (boot [code LOAD_A; b; code HALT]) w []
  = Finished (set_pc 3 (set_A b (boot [code LOAD_A; b; code HALT]))) w
             [TracePC 0; TraceLoadA b; TracePC 2; TraceHalt].
Proof.
  assert (vsize [code LOAD_A; b; code HALT] <= 65536) as Hsz
    by (unfold vsize; cbn [length]; lia).
  rewrite (boot_record _ Hsz).
  pose proof (image_lookup _ 0%nat _ Hsz eq_refl) as H0.
  pose proof (image_lookup _ 1%nat _ Hsz eq_refl) as H1.
  pose proof (image_lookup _ 2%nat _ Hsz eq_refl) as H2.
  set (m := list_inserts 0 _ _) in *.
  set (st := replicate (Z.to_nat STACK_SIZE) 0).
  rewrite (run_S_continue _ _ _ _ _ (step_LOAD_A 0 0 0 0 false m st w b H0 H1) eq_refl).
  cbn [next world output app].
  change (wrap16 (wrap16 (0 + 1) + 1)) with 2.
  rewrite (run_S_halt _ _ _ _ _ (step_HALT b 0 2 0 false m st w H2) eq_refl).
  reflexivity.
Qed.

(** X12.  From text to register: for every operand token that [stoi]
    accepts with value [v], the two lines [LOAD_A <token>] and [HALT]
    assemble to [03, v mod 256, FF], and that image run on a fresh machine
    halts after two steps with [v mod 256] in A.  An operand outside 0..255
    is thus not refused but reduced modulo 256. *)
Theorem assembled_load_reduces_operand_mod_256 (t : string) (v : Z) (w : World) :
  is_word t = true → stoi t = Some v →
  assemble_lines ["LOAD_A " +:+ t; "HALT"%string] = ([0x03; v mod 256; 0xFF], []) ∧
  ∃ s out, run 2 (boot [0x03; v mod 256; 0xFF]) w [] = Finished s w out ∧
           reg_A s = v mod 256.
Proof.
  intros Hw Hv. split.
  - unfold assemble_lines.
    assert (fst (pass1 ["LOAD_A " +:+ t; "HALT"%string]) = ∅) as ->.
    { unfold pass1, USER_PROGRAM_START_ADDRESS. cbn [foldl].
      rewrite pass1_line_spec by lia.
      rewrite pass1_line_spec by apply wrap16_range.
      assert (label_of ("LOAD_A " +:+ t) = None) as -> by (vm_compute; reflexivity).
      reflexivity. }
    cbn [pass2]. unfold pass2_line at 1.
    assert (mnemonic_of ("LOAD_A " +:+ t) = Some ("LOAD_A"%string, String " "%char t))
      as -> by (vm_compute; reflexivity).
    change (opcodeMap !! "LOAD_A"%string) with (Some LOAD_A).
    change (has_operand "LOAD_A") with true. cbn iota.
    rewrite (read_last_word _ _ Hw). cbn [fst].
    unfold operand_byte. rewrite lookup_empty, Hv. cbn [fmap option_fmap option_map].
    reflexivity.
  - eexists _, _. split; [apply run_load_halt|]. reflexivity.
Qed.

Lemma assembled_load_reduces_operand_mod_256_witness :
  assemble_lines ["LOAD_A " +:+ "-1"; "HALT"%string] = ([0x03; (-1) mod 256; 0xFF], []) ∧
  ∃ s out, run 2 (boot [0x03; (-1) mod 256; 0xFF]) quiet [] = Finished s quiet out ∧
           reg_A s = (-1) mod 256.
Proof.
  apply (assembled_load_reduces_operand_mod_256 "-1" (-1) quiet); reflexivity.
Defined.

(** * The compiler's tables *)



Lemma declared_initial : declared [] initial.
Proof.
  split.
  - reflexivity.
  - reflexivity.
  - constructor.
  - intros x. cbn [initial variables]. rewrite lookup_empty.
    split; [intros [? [=]]|intros H; inversion H].
  - intros i x [=].
  - constructor.
Qed.

Lemma declared_address (names : list string) (st : CState) (x : string) (a : Z) :
  declared names st → variables st !! x = Some a → byte a.
Proof.
  intros Hd Hx.
  assert (x ∈ names) as Hin by (apply Hd; eauto).
  apply list_elem_of_lookup in Hin as [i Hi].
  rewrite (d_addr _ _ Hd i x Hi) in Hx. injection Hx as <-. apply wrap8_byte.
Qed.

Lemma push_operand_bytes (names : list string) (st : CState) (load : OpCode)
    (val : string) (log : list cdiag) (out out' : list Z) :
  declared names st → Forall byte out →
  push_operand load (variables st) val log out = Ok out' → Forall byte out'.
Proof.
  intros Hd Hout. unfold push_operand.
  destruct (variables st !! val) as [a|] eqn:Ha.
  - intros [= <-]. apply Forall_app. split; [done|].
    apply Forall_cons. split; [apply code_byte|].
    apply Forall_singleton. eapply declared_address; eauto.
  - destruct (stoi val) as [v|]; [|discriminate].
    intros [= <-]. apply Forall_app. split; [done|].
    apply Forall_cons. split; [apply code_byte|].
    apply Forall_singleton. apply wrap8_byte.
Qed.

Lemma push_operand_fail (load : OpCode) (vars : gmap string Z) (val : string)
    (log : list cdiag) (out : list Z) (log' : list cdiag) :
  push_operand load vars val log out = Fail log' →
  ∃ e, log' = log ++ [e] ∧ is_error e = true.
Proof.
  unfold push_operand. destruct (vars !! val); [discriminate|].
  destruct (stoi val); [discriminate|]. intros [= <-]. eauto.
Qed.

Ltac wrap8_eq :=
  unfold wrap8 in *; Z.to_euclidean_division_equations; lia.

(** One line keeps the tables in order, and adds at most one name. *)
Lemma compile_line_declared (oe : option ascii) (names : list string)
    (st st' : CState) (line : string) :
  declared names st → compile_line oe st line = Ok st' →
  ∃ names', declared names' st'.
Proof.
  intros Hd. unfold compile_line.
  destruct (read EmptyString line) as [token ss].
  destruct (empty token || is_comment token); [intros [= <-]; eauto|].
  destruct (String.eqb token "int").
  - destruct (read EmptyString ss) as [varName ss'].
    destruct (strip_semicolon oe VarNameToken varName) as [x| |]; cbn;
      [|discriminate..].
    destruct (variables st !! x) eqn:Hx; [discriminate|].
    intros [= <-]. exists (names ++ [x]).
    assert (x ∉ names) as Hnew.
    { intros Hin. apply Hd in Hin as [? ?]. congruence. }
    split; cbn [console next_var_addr variables assemblyOutput].
    + unfold declarations. rewrite imap_app. cbn [imap].
      rewrite (d_console _ _ Hd), (d_next _ _ Hd).
      unfold declarations. by rewrite Nat.add_0_r.
    + rewrite (d_next _ _ Hd), length_app. cbn [length]. wrap8_eq.
    + apply NoDup_app. split; [apply Hd|]. split; [|apply NoDup_singleton].
      intros y Hy ->%list_elem_of_singleton. done.
    + intros y. rewrite elem_of_app, list_elem_of_singleton.
      rewrite lookup_insert_is_Some. rewrite (d_dom _ _ Hd y).
      split.
      * intros [H|[_ H]]; [right; by symmetry|by left].
      * intros [H|H]; [|left; by symmetry].
        destruct (decide (x = y)); [by left|right; by split].
    + intros i y Hi. apply lookup_app_Some in Hi as [Hi|[Hlen Hi]].
      * rewrite lookup_insert_ne; [by apply Hd|].
        intros ->. apply Hnew. by eapply list_elem_of_lookup_2.
      * apply list_lookup_singleton_Some in Hi as [Hi ->].
        rewrite lookup_insert_eq, (d_next _ _ Hd). do 3 f_equal. lia.
    + apply Hd.
  - destruct (read EmptyString ss) as [equals ss1].
    destruct (read EmptyString ss1) as [val1 ss2].
    destruct (negb (String.eqb equals "=")); [discriminate|].
    destruct (variables st !! token) as [target|] eqn:Ht; [|discriminate].
    pose proof (declared_address _ _ _ _ Hd Ht) as Htb.
    destruct (read EmptyString ss2) as [op ss3].
    destruct (if empty op then Ok true else _) as [[]| |]; cbn;
      [| |discriminate..].
    + destruct (strip_semicolon oe OperatorToken op); cbn; [|discriminate..].
      destruct (push_operand LOAD_A _ val1 _ _) as [out| |] eqn:Hout; cbn;
        [|discriminate..].
      intros [= <-]. exists names. destruct Hd. split; try done. cbn.
      apply Forall_app. split.
      * eapply push_operand_bytes; [by split| |exact Hout]. done.
      * apply Forall_cons. split; [apply (code_byte STORE_A)|].
        by apply Forall_singleton.
    + destruct (read EmptyString ss3) as [val2 ss4].
      destruct (strip_semicolon oe SecondOperandToken val2) as [val2'| |]; cbn;
        [|discriminate..].
      destruct (push_operand LOAD_A _ val1 _ _) as [out| |] eqn:Hout; cbn;
        [|discriminate..].
      destruct (push_operand LOAD_B _ val2' _ _) as [out2| |] eqn:Hout2; cbn;
        [|discriminate..].
      assert (Forall byte out2) as Hb2.
      { eapply push_operand_bytes; [exact Hd| |exact Hout2].
        eapply push_operand_bytes; [exact Hd| |exact Hout]. apply Hd. }
      assert (∀ o, Forall byte (out2 ++ [code o] ++ [code STORE_A; target])) as Hfin.
      { intros o. apply Forall_app. split; [done|].
        apply Forall_cons. split; [apply code_byte|].
        apply Forall_cons. split; [apply (code_byte STORE_A)|].
        by apply Forall_singleton. }
      destruct (String.eqb op "+");
        [intros [= <-]; exists names; destruct Hd; split; try done;
         apply (Hfin ADD_A_B)|].
      destruct (String.eqb op "-");
        [intros [= <-]; exists names; destruct Hd; split; try done;
         apply (Hfin SUB_A_B)|].
      discriminate.
Qed.

(** A line that fails adds one error to what was printed. *)
Lemma compile_line_fail (oe : option ascii) (st : CState) (line : string)
    (log : list cdiag) :
  compile_line oe st line = Fail log →
  ∃ e, log = console st ++ [e] ∧ is_error e = true.
Proof.
  unfold compile_line.
  destruct (read EmptyString line) as [token ss].
  destruct (empty token || is_comment token); [discriminate|].
  destruct (String.eqb token "int").
  - destruct (read EmptyString ss) as [varName ss'].
    unfold strip_semicolon, back, pop_back.
    repeat (case_match; cbn; try discriminate); intros [= <-]; eauto.
  - destruct (read EmptyString ss) as [equals ss1].
    destruct (read EmptyString ss1) as [val1 ss2].
    destruct (negb (String.eqb equals "=")); [intros [= <-]; eauto|].
    destruct (variables st !! token) as [target|]; [|intros [= <-]; eauto].
    destruct (read EmptyString ss2) as [op ss3].
    destruct (if empty op then Ok true else _) as [[]|l|] eqn:Hlast; cbn;
      [| | |discriminate].
    + destruct (strip_semicolon oe OperatorToken op) as [?|l|] eqn:Hs; cbn;
        [| |discriminate].
      * destruct (push_operand LOAD_A _ val1 _ _) as [out|l|] eqn:Hout; cbn;
          [discriminate| |discriminate].
        intros [= <-]. by eapply push_operand_fail.
      * exfalso. unfold strip_semicolon, back, pop_back in Hs.
        repeat (case_match; cbn in Hs; try discriminate).
    + destruct (read EmptyString ss3) as [val2 ss4].
      destruct (strip_semicolon oe SecondOperandToken val2) as [val2'|l|] eqn:Hs; cbn;
        [| |discriminate].
      * destruct (push_operand LOAD_A _ val1 _ _) as [out|l|] eqn:Hout; cbn;
          [| |discriminate].
        -- destruct (push_operand LOAD_B _ val2' _ _) as [out2|l|] eqn:Hout2; cbn;
             [| |discriminate].
           ++ repeat (case_match; try discriminate). intros [= <-]. eauto.
           ++ intros [= <-]. by eapply push_operand_fail.
        -- intros [= <-]. by eapply push_operand_fail.
      * exfalso. unfold strip_semicolon, back, pop_back in Hs.
        repeat (case_match; cbn in Hs; try discriminate).
    + exfalso. unfold back in Hlast.
      repeat (case_match; cbn in Hlast; try discriminate).
Qed.

Lemma compile_loop_declared (oe : option ascii) (lines : list string) :
  ∀ names st,
  declared names st →
  match compile_loop oe st lines with
  | Ok st' => ∃ names', declared names' st'
  | Fail log => ∃ names' e, NoDup names' ∧ log = declarations names' ++ [e] ∧
                            is_error e = true
  | UB _ => True
  end.
Proof.
  induction lines as [|l lines IH]; intros names st Hd; cbn [compile_loop].
  - eauto.
  - destruct (compile_line oe st l) as [st'|log|] eqn:Hl; cbn.
    + destruct (compile_line_declared _ _ _ _ _ Hd Hl) as [names' Hd'].
      apply (IH names' st' Hd').
    + destruct (compile_line_fail _ _ _ _ Hl) as (e & -> & He).
      exists names, e. rewrite (d_console _ _ Hd). split; [apply Hd|done].
    + done.
Qed.

(** X13.  [compile] returns the empty vector exactly when it reported an
    error; otherwise the bytecode ends with HALT and consists of bytes in
    0..255.  (The caller takes an empty result for a failure.) *)
Theorem compile_returns_empty_iff_error
    (oe : option ascii) (lines : list string) (bytes : list Z) (log : list cdiag) :
  compile_lines oe lines = Returned bytes log →
  (bytes = [] ↔ ∃ e, e ∈ log ∧ is_error e = true) ∧
  (bytes ≠ [] → last bytes = Some (code HALT) ∧ Forall byte bytes).
Proof.
  unfold compile_lines.
  pose proof (compile_loop_declared oe lines [] initial declared_initial) as H.
  destruct (compile_loop oe initial lines) as [st|log'|]; [| |discriminate].
  - destruct H as [names Hd]. intros [= <- <-]. split.
    + split; [intros H; by destruct (assemblyOutput st)|].
      intros (e & He & Herr). rewrite (d_console _ _ Hd) in He.
      unfold declarations in He.
      apply list_elem_of_lookup in He as [i Hi].
      apply list_lookup_imap_Some in Hi as (x & _ & ->). discriminate.
    + intros _. split; [by rewrite last_snoc|].
      apply Forall_app. split; [apply Hd|].
      apply Forall_singleton, (code_byte HALT).
  - destruct H as (names & e & _ & -> & He). intros [= <- <-]. split; [|done].
    split; [|done]. intros _. exists e. split; [|done].
    apply elem_of_app. right. by left.
Qed.

Lemma compile_returns_empty_iff_error_witness :
  (@nil Z) = [] ↔ ∃ e, e ∈ [LogDeclared "a" 16; ErrAlreadyDeclared "a"] ∧
                 is_error e = true.
Proof.
  apply (compile_returns_empty_iff_error None ["int a;"; "int a;"]%string []
           [LogDeclared "a" 16; ErrAlreadyDeclared "a"]).
  vm_compute. reflexivity.
Defined.



(** * Compiling single statements *)

Lemma read_space (old r : string) : read old (String " "%char r) = read old r.
Proof. reflexivity. Qed.

Lemma read_word (old t r : string) :
  is_word t = true → read old (t +:+ String " "%char r) = (t, String " "%char r).
Proof.
  intros H. pose proof (extract_word t r H) as He. unfold extract in He.
  unfold read. destruct (skip_space (t +:+ String " "%char r)); [discriminate|].
  by injection He.
Qed.

Lemma is_word_snoc (x : string) (c : ascii) :
  is_word x = true → isspace c = false → is_word (x +:+ String c EmptyString) = true.
Proof.
  unfold is_word. intros [Hne Hns]%andb_true_iff Hc.
  destruct x as [|d x]; [discriminate|].
  change (String d x +:+ String c EmptyString)
    with (String d (x +:+ String c EmptyString)).
  cbn [empty negb andb no_space] in *.
  apply andb_true_iff in Hns as [-> Hns]. cbn [andb].
  clear Hne. induction x as [|e x IH].
  - change (EmptyString +:+ String c EmptyString) with (String c EmptyString).
    cbn [no_space]. by rewrite Hc.
  - change (String e x +:+ String c EmptyString)
      with (String e (x +:+ String c EmptyString)).
    cbn [no_space] in *. apply andb_true_iff in Hns as [-> Hns]. by apply IH.
Qed.

Lemma last_char_snoc (x : string) (c : ascii) :
  last_char (x +:+ String c EmptyString) = Some c.
Proof.
  induction x as [|d x IH]; [reflexivity|].
  change (String d x +:+ String c EmptyString)
    with (String d (x +:+ String c EmptyString)).
  cbn [last_char]. rewrite IH.
  destruct x; reflexivity.
Qed.

Lemma drop_last_snoc (x : string) (c : ascii) :
  drop_last (x +:+ String c EmptyString) = x.
Proof.
  induction x as [|d x IH]; [reflexivity|].
  change (String d x +:+ String c EmptyString)
    with (String d (x +:+ String c EmptyString)).
  cbn [drop_last]. rewrite IH. destruct x; reflexivity.
Qed.

Lemma empty_snoc (x : string) (c : ascii) :
  empty (x +:+ String c EmptyString) = false.
Proof. destruct x; reflexivity. Qed.

Lemma is_word_nonempty (x : string) : is_word x = true → empty x = false.
Proof. unfold is_word. by intros [->%negb_true_iff _]%andb_true_iff. Qed.

(** The line [int x;]. *)
Lemma compile_line_declaration (oe : option ascii) (st : CState) (x : string) :
  is_word x = true →
  compile_line oe st (spaced ["int"%string; x +:+ ";"])
  = match variables st !! x with
    | Some _ => Fail (console st ++ [ErrAlreadyDeclared x])
    | None =>
        Ok (mkCState (assemblyOutput st)
                     (<[x := next_var_addr st]> (variables st))
                     (wrap8 (next_var_addr st + 1))
                     (console st ++ [LogDeclared x (next_var_addr st)]))
    end.
Proof.
  intros Hx. unfold compile_line, spaced. cbn [foldr].
  rewrite read_word by reflexivity.
  change (empty "int" || is_comment "int") with false.
  change (String.eqb "int" "int") with true. cbn iota.
  rewrite read_space, read_word by (by apply is_word_snoc).
  unfold strip_semicolon, back, pop_back.
  rewrite last_char_snoc. cbn [mbind Res_bind].
  change (Ascii.eqb ";" ";") with true. cbn iota.
  rewrite empty_snoc, drop_last_snoc. reflexivity.
Qed.

(** The line [x = t ;] for a declared [x]. *)
Lemma compile_line_assignment (oe : option ascii) (st : CState) (x t : string)
    (target : Z) :
  is_word x = true → is_comment x = false → String.eqb x "int" = false →
  is_word t = true → variables st !! x = Some target →
  compile_line oe st (spaced [x; "="%string; t; ";"%string])
  = out ← push_operand LOAD_A (variables st) t (console st) (assemblyOutput st);
    Ok (mkCState (out ++ [code STORE_A; target])
                 (variables st) (next_var_addr st) (console st)).
Proof.
  intros Hx Hc Hint Ht Hvar. unfold compile_line, spaced. cbn [foldr].
  rewrite (read_word _ x _ Hx), (is_word_nonempty _ Hx), Hc, Hint.
  cbn [orb]. rewrite read_space, read_word by reflexivity.
  rewrite read_space, (read_word _ t _ Ht).
  change (negb (String.eqb "=" "=")) with false. cbn iota. rewrite Hvar.
  rewrite read_space, read_word by reflexivity.
  reflexivity.
Qed.

(** The line [x = t ;] for an undeclared [x]. *)
Lemma compile_line_undeclared (oe : option ascii) (st : CState) (x t : string) :
  is_word x = true → is_comment x = false → String.eqb x "int" = false →
  is_word t = true → variables st !! x = None →
  compile_line oe st (spaced [x; "="%string; t; ";"%string])
  = Fail (console st ++ [ErrUndefinedVariable x]).
Proof.
  intros Hx Hc Hint Ht Hvar. unfold compile_line, spaced. cbn [foldr].
  rewrite (read_word _ x _ Hx), (is_word_nonempty _ Hx), Hc, Hint.
  cbn [orb]. rewrite read_space, read_word by reflexivity.
  rewrite read_space, (read_word _ t _ Ht).
  change (negb (String.eqb "=" "=")) with false. cbn iota. by rewrite Hvar.
Qed.

Lemma compile_loop_app (oe : option ascii) (pre : list string) (l : string)
    (post : list string) : ∀ st,
  compile_loop oe st (pre ++ l :: post)
  = st1 ← compile_loop oe st pre;
    st2 ← compile_line oe st1 l;
    compile_loop oe st2 post.
Proof.
  induction pre as [|l0 pre IH]; intros st; cbn [app compile_loop].
  - reflexivity.
  - destruct (compile_line oe st l0); cbn; [apply IH|reflexivity..].
Qed.

(** X15.  Wherever it stands in a source whose earlier lines compile, a
    second declaration [int x;] of a declared name, or an assignment
    [x = t ;] to an undeclared name, makes [compile] return the empty
    vector with that error as its last report; the lines behind it are not
    looked at. *)
Theorem compile_rejects_redeclaration_and_undeclared_target
    (oe : option ascii) (pre post : list string) (st : CState) (x t : string) :
  compile_loop oe initial pre = Ok st → is_word x = true →
  (is_Some (variables st !! x) →
   compile_lines oe (pre ++ spaced ["int"%string; x +:+ ";"] :: post)
   = Returned [] (console st ++ [ErrAlreadyDeclared x])) ∧
  (variables st !! x = None → is_comment x = false →
   String.eqb x "int" = false → is_word t = true →
   compile_lines oe (pre ++ spaced [x; "="%string; t; ";"%string] :: post)
   = Returned [] (console st ++ [ErrUndefinedVariable x])).
Proof.
  intros Hpre Hx. split.
  - intros [a Ha]. unfold compile_lines.
    rewrite compile_loop_app, Hpre. cbn [mbind Res_bind].
    rewrite (compile_line_declaration _ _ _ Hx), Ha. reflexivity.
  - intros Hnone Hc Hint Ht. unfold compile_lines.
    rewrite compile_loop_app, Hpre. cbn [mbind Res_bind].
    rewrite (compile_line_undeclared _ _ _ _ Hx Hc Hint Ht Hnone). reflexivity.
Qed.

Lemma compile_rejects_redeclaration_and_undeclared_target_witness :
  compile_lines None (["int a;"%string] ++ spaced ["int"%string; "a" +:+ ";"]
                        :: ["a = 1 ;"%string])
  = Returned [] ([LogDeclared "a" 16] ++ [ErrAlreadyDeclared "a"]).
Proof.
  refine (proj1 (compile_rejects_redeclaration_and_undeclared_target None
                   ["int a;"%string] ["a = 1 ;"%string]
                   (mkCState [] (<["a"%string := 16]> ∅) 17 [LogDeclared "a" 16])
                   "a" "1" _ _) _).
  - vm_compute. reflexivity.
  - reflexivity.
  - exists 16. vm_compute. reflexivity.
Defined.

Lemma run_load_store_halt (b a : Z) (w : World) :
  5 <= a < 256 →
  final_memory (run 3 (boot [code LOAD_A; b; code STORE_A; a; code HALT]) w []) a
  = Some b.
Proof.
  intros Ha.
  assert (vsize [code LOAD_A; b; code STORE_A; a; code HALT] <= 65536) as Hsz
    by (unfold vsize; cbn [length]; lia).
  rewrite (boot_record _ Hsz).
  pose proof (image_lookup _ 0%nat _ Hsz eq_refl) as H0.
  pose proof (image_lookup _ 1%nat _ Hsz eq_refl) as H1.
  pose proof (image_lookup _ 2%nat _ Hsz eq_refl) as H2.
  pose proof (image_lookup _ 3%nat _ Hsz eq_refl) as H3.
  pose proof (image_lookup _ 4%nat _ Hsz eq_refl) as H4.
  set (m := list_inserts 0 _ _) in *.
  set (st := replicate (Z.to_nat STACK_SIZE) 0).
  assert (vsize m = 65536) as Hm.
  { unfold m, vsize. rewrite length_inserts, length_replicate. reflexivity. }
  assert (a < vsize m) as Hlt by lia.
  assert (vget (<[Z.to_nat a := b]> m) 4 = Some (code HALT)) as H4'.
  { unfold vget in *. rewrite list_lookup_insert_ne by lia. exact H4. }
  assert (run 3 (mkCPU 0 0 0 0 false m st) w []
          = Finished (mkCPU b 0 5 0 false (<[Z.to_nat a := b]> m) st) w
                     [TracePC 0; TraceLoadA b; TracePC 2; TraceStoreA a;
                      TracePC 4; TraceHalt]) as ->.
  { rewrite (run_S_continue 2 _ _ _ _
               (step_LOAD_A 0 0 0 0 false m st w b H0 H1) eq_refl).
    cbn [next world output app].
    change (wrap16 (wrap16 (0 + 1) + 1)) with 2.
    rewrite (run_S_continue 1 _ _ _ _
               (step_STORE_A b 0 2 0 false m st w a H2 H3 Hlt) eq_refl).
    cbn [next world output app].
    change (wrap16 (wrap16 (2 + 1) + 1)) with 4.
    rewrite (run_S_halt 0 _ _ _ _
               (step_HALT b 0 4 0 false (<[Z.to_nat a := b]> m) st w H4') eq_refl).
    reflexivity. }
  cbn [final_memory memory]. unfold vget.
  apply list_lookup_insert_eq. unfold vsize in Hm. lia.
Qed.

(** X16.  A literal assignment does what it says: for every name [x] and
    every literal token [t] that [stoi] reads as [v], the two lines
    [int x;] and [x = t ;] compile to LOAD_A (v mod 256), STORE_A 0x10,
    HALT, and that program run on a fresh machine halts with [v mod 256] in
    memory cell 0x10, the cell of [x]. *)
Theorem compiled_literal_assignment_stores_value
    (oe : option ascii) (x t : string) (v : Z) (w : World) :
  is_word x = true → is_comment x = false → String.eqb x "int" = false →
  is_word t = true → x ≠ t → stoi t = Some v →
  compile_lines oe [spaced ["int"%string; x +:+ ";"];
                    spaced [x; "="%string; t; ";"%string]]
  = Returned [0x03; v mod 256; 0x05; 0x10; 0xFF] [LogDeclared x 0x10] ∧
  final_memory (run 3 (boot [0x03; v mod 256; 0x05; 0x10; 0xFF]) w []) 0x10
  = Some (v mod 256).
Proof.
  intros Hx Hc Hint Ht Hne Hv. split.
  - unfold compile_lines. cbn [compile_loop].
    rewrite (compile_line_declaration _ _ _ Hx).
    change (variables initial) with (∅ : gmap string Z).
    rewrite lookup_empty. cbn [mbind Res_bind].
    rewrite (compile_line_assignment _ _ x t 0x10 Hx Hc Hint Ht)
      by apply lookup_insert_eq.
    unfold push_operand. cbn [variables].
    rewrite lookup_insert_ne, lookup_empty, Hv by done.
    reflexivity.
  - apply (run_load_store_halt (v mod 256) 0x10). lia.
Qed.

Lemma compiled_literal_assignment_stores_value_witness :
  compile_lines None [spaced ["int"%string; "total" +:+ ";"];
                      spaced ["total"%string; "="%string; "300"%string; ";"%string]]
  = Returned [0x03; 300 mod 256; 0x05; 0x10; 0xFF] [LogDeclared "total" 0x10] ∧
  final_memory (run 3 (boot [0x03; 300 mod 256; 0x05; 0x10; 0xFF]) quiet []) 0x10
  = Some (300 mod 256).
Proof.
  apply (compiled_literal_assignment_stores_value None "total" "300" 300 quiet);
    try reflexivity. discriminate.
Defined.

(** X17.  A variable on the right-hand side stands for its address: for
    all distinct names [x] and [y], the lines [int x;], [int y;],
    [y = x ;] compile to LOAD_A 0x10, STORE_A 0x11, HALT, and the program
    leaves 0x10, the address of [x], in the cell of [y], whatever cell 0x10
    holds (the machine has no instruction that loads from memory). *)
Theorem compiled_variable_operand_is_its_address
    (oe : option ascii) (x y : string) (w : World) :
  is_word x = true → is_word y = true → x ≠ y →
  is_comment y = false → String.eqb y "int" = false →
  compile_lines oe [spaced ["int"%string; x +:+ ";"];
                    spaced ["int"%string; y +:+ ";"];
                    spaced [y; "="%string; x; ";"%string]]
  = Returned [0x03; 0x10; 0x05; 0x11; 0xFF] [LogDeclared x 0x10; LogDeclared y 0x11] ∧
  final_memory (run 3 (boot [0x03; 0x10; 0x05; 0x11; 0xFF]) w []) 0x11 = Some 0x10.
Proof.
  intros Hx Hy Hne Hc Hint. split.
  - unfold compile_lines. cbn [compile_loop].
    rewrite (compile_line_declaration _ _ _ Hx).
    change (variables initial) with (∅ : gmap string Z).
    rewrite lookup_empty. cbn [mbind Res_bind].
    rewrite (compile_line_declaration _ _ _ Hy). cbn [variables].
    rewrite lookup_insert_ne, lookup_empty by done. cbn [mbind Res_bind].
    rewrite (compile_line_assignment _ _ y x 0x11 Hy Hc Hint Hx)
      by apply lookup_insert_eq.
    unfold push_operand. cbn [variables].
    rewrite lookup_insert_ne, lookup_insert_eq by done.
    reflexivity.
  - apply (run_load_store_halt 0x10 0x11). lia.
Qed.

Lemma compiled_variable_operand_is_its_address_witness :
  compile_lines None [spaced ["int"%string; "a" +:+ ";"];
                      spaced ["int"%string; "b" +:+ ";"];
                      spaced ["b"%string; "="%string; "a"%string; ";"%string]]
  = Returned [0x03; 0x10; 0x05; 0x11; 0xFF]
             [LogDeclared "a" 0x10; LogDeclared "b" 0x11] ∧
  final_memory (run 3 (boot [0x03; 0x10; 0x05; 0x11; 0xFF]) quiet []) 0x11
  = Some 0x10.
Proof.
  apply (compiled_variable_operand_is_its_address None "a" "b" quiet);
    try reflexivity. discriminate.
Defined.

(** * The command loop *)

(** X18.  At the end of the input [main] does not return: every further
    [getline] fails, the empty command is answered with the
    unknown-command text, and the loop goes round again, whatever the
    session is. *)
Theorem main_loop_spins_at_end_of_input
    (commands : nat) (h : Host) (fuel : nat) (ses : Session) (u : Z)
    (out : list message) :
  main_loop commands h fuel ses (mkWorld [] u) out
  = GoesOn (out ++ concat (replicate commands [Prompt; MsgUnknown])).
Proof.
  revert out. induction commands as [|n IH]; intros out.
  - cbn. by rewrite app_nil_r.
  - cbn [main_loop get_line cin uninit replicate concat].
    change (command h fuel EmptyString ses (mkWorld [] u))
      with (Next ses (mkWorld [] u) [MsgUnknown]).
    cbn iota. rewrite IH. by rewrite <- !app_assoc.
Qed.

Lemma command_run (h : Host) (fuel : nat) (ses : Session) (w : World) :
  running ses = true →
  command h fuel "run" ses w
  = match run fuel (cpu ses) w [] with
    | Finished s w' out =>
        Next (mkSession s false) w' ((FromEngine <$> out) ++ [MsgFinished])
    | Undefined => Broken []
    | OutOfFuel => Unbounded []
    end.
Proof.
  intros H.
  transitivity (if running ses
                then match run fuel (cpu ses) w [] with
                     | Finished s w' out =>
                         Next (mkSession s false) w'
                              ((FromEngine <$> out) ++ [MsgFinished])
                     | Undefined => Broken []
                     | OutOfFuel => Unbounded []
                     end
                else Next ses w [MsgNothingToRun]); [reflexivity|].
  by rewrite H.
Qed.

(** X19.  The program and the command loop read the same input.  With
    the echo image loaded, the line [run] makes the program take the first
    visible character of what follows on the console, so the next command
    line reaches the loop without it; after the run the session is no
    longer runnable. *)
Theorem program_reads_from_the_command_lines
    (n k : nat) (h : Host) (input rest : list Z) (u c : Z) (out : list message) :
  skipws input = c :: rest → byte c →
  main_loop (S n) h (5 + k) (mkSession (boot echo_program) true)
            (mkWorld (keys "run" ++ 10 :: input) u) out
  = main_loop n h (5 + k)
      (mkSession (set_pc 7 (set_B c (set_A 1 (boot echo_program)))) false)
      (mkWorld rest u)
      (out ++ [Prompt] ++
       (FromEngine <$> [TracePC 0; TraceLoadA 2; TracePC 2; TraceSyscall;
                        TracePC 3; TraceLoadA 1; TracePC 5; TraceSyscall;
                        PrintChar c; TracePC 6; TraceHalt]) ++ [MsgFinished]).
Proof.
  intros Hin Hc. cbn [main_loop cin uninit].
  change (get_line (keys "run" ++ 10 :: input)) with ("run"%string, input).
  cbn iota.
  rewrite (command_run h (5 + k) (mkSession (boot echo_program) true)
             (mkWorld input u) eq_refl).
  cbn [cpu]. rewrite (run_echo k input rest u c Hin Hc). reflexivity.
Qed.

Lemma program_reads_from_the_command_lines_witness :
  main_loop 2 bare_host 5 (mkSession (boot echo_program) true)
            (mkWorld (keys "run" ++ 10 :: keys "quit") 0) []
  = main_loop 1 bare_host 5
      (mkSession (set_pc 7 (set_B 113 (set_A 1 (boot echo_program)))) false)
      (mkWorld (keys "uit") 0)
      ([] ++ [Prompt] ++
       (FromEngine <$> [TracePC 0; TraceLoadA 2; TracePC 2; TraceSyscall;
                        TracePC 3; TraceLoadA 1; TracePC 5; TraceSyscall;
                        PrintChar 113; TracePC 6; TraceHalt]) ++ [MsgFinished]).
Proof.
  apply (program_reads_from_the_command_lines 1 0 bare_host (keys "quit")
           (keys "uit") 0 113 []).
  - reflexivity.
  - unfold byte. lia.
Defined.

Lemma parseHexProgram_space (text : string) :
  parseHexProgram (String " "%char text) = parseHexProgram text.
Proof.
  unfold parseHexProgram. cbn [String.length].
  remember (String.length text) as n eqn:Hn.
  change (hex_loop (S (S n)) (String " "%char text) [] [])
    with (match extract text with
          | None => Some ([], [])
          | Some (hexByte, ss') =>
              match hex_byte hexByte with
              | inl v => hex_loop (S n) ss' ([] ++ [v]) []
              | inr d => hex_loop (S n) ss' [] ([] ++ [d])
              end
          end).
  change (hex_loop (S n) text [] [])
    with (match extract text with
          | None => Some ([], [])
          | Some (hexByte, ss') =>
              match hex_byte hexByte with
              | inl v => hex_loop n ss' ([] ++ [v]) []
              | inr d => hex_loop n ss' [] ([] ++ [d])
              end
          end).
  destruct (extract text) as [[t r]|] eqn:Hex; [|reflexivity].
  destruct (extract_Some _ _ _ Hex) as [_ Hlen].
  destruct (hex_byte t); apply hex_loop_fuel; lia.
Qed.

(** X20.  [load] with at least one valid byte sets PC to 0 and makes the
    session runnable, and that is all it does to the registers: A, B, SP
    and the stack are those of the session before.  When the bytes fit,
    they replace the first cells of the memory and the rest of the memory
    stays; when there are more bytes than cells, [loadProgram] reports it
    and copies nothing, and [load] still sets PC to 0, makes the session
    runnable and says that the program was loaded.  A line without any
    valid byte changes nothing and is answered with the reports of the
    parser alone. *)
Theorem load_installs_image_and_keeps_registers
    (h : Host) (fuel : nat) (ses : Session) (w : World)
    (text : string) (program : list Z) (log : list hdiag) :
  parseHexProgram text = Some (program, log) →
  command h fuel ("load" +:+ String " "%char text) ses w
  = if bool_decide (program = []) then Next ses w (FromHexLoader <$> log)
    else if decide (vsize program <= vsize (memory (cpu ses))) then
      Next (mkSession
              (set_pc 0 (set_memory (list_inserts 0 program (memory (cpu ses)))
                                    (cpu ses)))
              true)
           w ((FromHexLoader <$> log) ++ [MsgLoaded])
    else
      Next (mkSession (set_pc 0 (cpu ses)) true) w
           ((FromHexLoader <$> log)
            ++ [FromEngine (ErrProgramTooLarge 0); MsgLoaded]).
Proof.
  intros Hp. unfold command.
  rewrite read_word by reflexivity.
  change (String.eqb "load" "help") with false.
  change (String.eqb "load" "load") with true. cbn iota.
  rewrite parseHexProgram_space, Hp.
  case_bool_decide; [reflexivity|].
  unfold install, USER_PROGRAM_START_ADDRESS.
  destruct (decide (vsize program <= vsize (memory (cpu ses)))) as [Hfit|Hbig].
  - rewrite loadProgram_fits by lia. reflexivity.
  - rewrite loadProgram_too_large by lia. reflexivity.
Qed.

Lemma load_installs_image_and_keeps_registers_witness :
  command bare_host 0 ("load" +:+ String " "%char "03 2a ff")
          (mkSession add_machine false) quiet
  = if bool_decide ([3; 42; 255] = []) then Next (mkSession add_machine false) quiet []
    else if decide (vsize [3; 42; 255] <= vsize (memory (cpu (mkSession add_machine false))))
    then
      Next (mkSession
              (set_pc 0 (set_memory (list_inserts 0 [3; 42; 255]
                                       (memory add_machine)) add_machine))
              true)
           quiet ([] ++ [MsgLoaded])
    else
      Next (mkSession (set_pc 0 (cpu (mkSession add_machine false))) true) quiet
           ([] ++ [FromEngine (ErrProgramTooLarge 0); MsgLoaded]).
Proof.
  apply (load_installs_image_and_keeps_registers bare_host 0
           (mkSession add_machine false) quiet "03 2a ff" [3; 42; 255] []).
  reflexivity.
Defined.

Lemma line_size_nonneg (l : string) : 0 <= line_size l.
Proof. unfold line_size. repeat case_match; lia. Qed.

Lemma code_size_nonneg (lines : list string) : 0 <= code_size lines.
Proof.
  induction lines as [|l lines IH]; cbn [code_size foldr]; [lia|].
  fold (code_size lines). pose proof (line_size_nonneg l). lia.
Qed.

Lemma pass2_line_empty (labels : gmap string Z) (l : string) :
  line_size l = 0 → pass2_line labels l = inl [].
Proof.
  unfold line_size, pass2_line.
  destruct (mnemonic_of l) as [[token ss]|]; [|done].
  destruct (opcodeMap !! token); [|done].
  destruct (has_operand token); discriminate.
Qed.

Lemma emitted_empty (labels : gmap string Z) (lines : list string) :
  code_size lines = 0 → emitted labels lines = inl [].
Proof.
  induction lines as [|l lines IH]; cbn [code_size foldr emitted]; [done|].
  fold (code_size lines). intros H.
  pose proof (line_size_nonneg l). pose proof (code_size_nonneg lines).
  rewrite pass2_line_empty by lia. rewrite IH by lia. reflexivity.
Qed.

(** X21.  [asm] takes an empty result for a failure: a file whose lines
    hold no instruction (only comments, labels, blank lines or unknown
    words) is answered with the failure text although the assembler
    reported nothing, and the session is left as it was. *)
Theorem asm_without_instructions_is_a_failure
    (h : Host) (fuel : nat) (ses : Session) (w : World) (filename text : string) :
  is_word filename = true → files h filename = Some text →
  code_size (getlines text) = 0 →
  assemble (Some text) = ([], []) ∧
  command h fuel ("asm" +:+ String " "%char filename) ses w
  = Next ses w [MsgAsmFailed].
Proof.
  intros Hf Hfile Hsize.
  assert (assemble (Some text) = ([], [])) as Hasm.
  { unfold assemble, assemble_lines. rewrite pass2_emitted.
    by rewrite emitted_empty. }
  split; [exact Hasm|]. unfold command.
  rewrite read_word by reflexivity.
  change (String.eqb "asm" "help") with false.
  change (String.eqb "asm" "load") with false.
  change (String.eqb "asm" "asm") with true. cbn iota.
  rewrite (read_last_word _ _ Hf). cbn [fst].
  rewrite (is_word_nonempty _ Hf), Hfile, Hasm. reflexivity.
Qed.

Lemma asm_without_instructions_is_a_failure_witness :
  command (mkHost (λ _, Some "; nothing here
start:
") None) 0 ("asm" +:+ String " "%char "empty.asm") (mkSession CPU_new false) quiet
  = Next (mkSession CPU_new false) quiet [MsgAsmFailed].
Proof.
  refine (proj2 (asm_without_instructions_is_a_failure
                   (mkHost (λ _, Some "; nothing here
start:
") None) 0 (mkSession CPU_new false) quiet "empty.asm" "; nothing here
start:
" _ _ _)); reflexivity.
Defined.

Lemma get_hex_u16_range (ss : string) (a : Z) :
  get_hex_u16 ss = Some a → 0 <= a < 65536.
Proof.
  unfold get_hex_u16. destruct (skip_space ss); [discriminate|].
  destruct (take_sign _) as [neg s0].
  assert (∀ s acc seen v, 0 <= acc → hex_digits s acc seen = Some v → 0 <= v) as Hpos.
  { clear. intros s. induction s as [|c s IH]; intros acc seen v Hacc; cbn [hex_digits].
    - destruct seen; [intros [= <-]; lia|discriminate].
    - destruct (hex_value c) as [d|] eqn:Hd.
      + apply IH. unfold hex_value in Hd. cbv zeta in Hd.
        repeat match type of Hd with
               | context [?a <=? ?b] => destruct (Z.leb_spec a b)
               end; cbn [andb] in Hd; simplify_eq; lia.
      + destruct seen; [intros [= <-]; lia|discriminate]. }
  destruct (hex_digits (skip_0x s0) 0 false) as [v|] eqn:Hv; cbn [from_option id].
  - specialize (Hpos _ 0 _ _ ltac:(lia) Hv).
    destruct (Z.ltb_spec 65535 v); [intros [= <-]; lia|].
    destruct neg; intros [= <-]; [apply wrap16_range|lia].
  - change (65535 <? 0) with false. cbn iota.
    destruct neg; intros [= <-]; [apply wrap16_range|lia].
Qed.

Lemma get_hex_u16_None (ss : string) :
  get_hex_u16 ss = None ↔ skip_space ss = EmptyString.
Proof.
  unfold get_hex_u16. destruct (skip_space ss) as [|c rest]; [done|].
  destruct (take_sign _) as [neg s0].
  split; [|discriminate].
  destruct (65535 <? _); [discriminate|]. destruct neg; discriminate.
Qed.

Lemma command_mem (h : Host) (fuel : nat) (ses : Session) (w : World) (rest : string) :
  command h fuel ("mem" +:+ String " "%char rest) ses w
  = match get_hex_u16 (String " "%char rest) with
    | None => Broken []
    | Some address =>
        if decide (address < vsize (memory (cpu ses))) then
          match vget (memory (cpu ses)) address with
          | Some v => Next ses w [MemCell address v]
          | None => Broken []
          end
        else Next ses w [MsgInvalidAddress]
    end.
Proof.
  unfold command. rewrite read_word by reflexivity. reflexivity.
Qed.

(** X22.  [mem] followed by an argument always shows a cell: whatever the
    argument is, the address extracted from it is a 16-bit value, below the
    65536 cells of the memory, so the invalid-address text is never
    printed.  [mem] with nothing behind it compares and indexes with an
    address that was never assigned. *)
Theorem mem_with_argument_shows_a_cell
    (h : Host) (fuel : nat) (ses : Session) (w : World) (rest : string) :
  wf (cpu ses) →
  (skip_space rest ≠ EmptyString →
   ∃ a v, get_hex_u16 (String " "%char rest) = Some a ∧
          command h fuel ("mem" +:+ String " "%char rest) ses w
          = Next ses w [MemCell a v] ∧
          0 <= a < 65536 ∧ vget (memory (cpu ses)) a = Some v) ∧
  (skip_space rest = EmptyString →
   command h fuel ("mem" +:+ String " "%char rest) ses w = Broken []).
Proof.
  intros Hwf. rewrite command_mem. split.
  - intros Harg.
    destruct (get_hex_u16 (String " "%char rest)) as [a|] eqn:Ha.
    2:{ apply get_hex_u16_None in Ha. contradiction. }
    pose proof (get_hex_u16_range _ _ Ha) as Hr.
    rewrite (wf_memory_size _ Hwf). unfold MEMORY_SIZE.
    destruct (decide (a < 65536)) as [_|?]; [|lia].
    destruct (vget_is_Some (memory (cpu ses)) a) as [v Hv].
    { rewrite (wf_memory_size _ Hwf). unfold MEMORY_SIZE. lia. }
    exists a, v. rewrite Hv. done.
  - intros Hnone.
    assert (get_hex_u16 (String " "%char rest) = None) as ->; [|reflexivity].
    apply get_hex_u16_None. exact Hnone.
Qed.

Lemma mem_with_argument_shows_a_cell_witness :
  command bare_host 0 ("mem" +:+ String " "%char "-1") (mkSession CPU_new false) quiet
  = Next (mkSession CPU_new false) quiet [MemCell 65535 0] ∧
  command bare_host 0 ("mem" +:+ String " "%char "  ") (mkSession CPU_new false) quiet
  = Broken [].
Proof.
  split.
  - destruct (proj1 (mem_with_argument_shows_a_cell bare_host 0
                       (mkSession CPU_new false) quiet "-1" CPU_new_wf))
      as (a & v & Ha & Hc & _ & Hv); [discriminate|].
    vm_compute in Ha. injection Ha as <-.
    vm_compute in Hv. injection Hv as <-. exact Hc.
  - apply (mem_with_argument_shows_a_cell bare_host 0
             (mkSession CPU_new false) quiet "  " CPU_new_wf).
    reflexivity.
Defined.

Lemma parseHexProgram_bytes (text : string) (p : list Z) (l : list hdiag) :
  parseHexProgram text = Some (p, l) → Forall byte p.
Proof.
  unfold parseHexProgram. intros H.
  destruct (hex_loop_returns (S (String.length text)) text [] [])
    as (p' & l' & H' & Hb); [lia|done|].
  rewrite H in H'. by simplify_eq.
Qed.

Lemma assemble_bytes (file : option string) : Forall byte (fst (assemble file)).
Proof.
  destruct file as [text|]; [|by cbn]. unfold assemble, assemble_lines.
  rewrite pass2_emitted.
  destruct (emitted _ _) as [bs|e] eqn:He; [|by cbn].
  cbn [fst app]. by destruct (emitted_size _ _ _ He).
Qed.

Lemma compile_bytes (oe : option ascii) (file : option string)
    (bytes : list Z) (log : list cdiag) :
  compile oe file = Returned bytes log → Forall byte bytes.
Proof.
  destruct file as [text|]; [|by intros [= <- <-]]. unfold compile, compile_lines.
  pose proof (compile_loop_declared oe (getlines text) [] initial declared_initial) as H.
  destruct (compile_loop oe initial (getlines text)) as [st|log'|]; [| |discriminate].
  - destruct H as [names Hd]. intros [= <- <-].
    apply Forall_app. split; [apply Hd|]. apply Forall_singleton, (code_byte HALT).
  - by intros [= <- <-].
Qed.

Lemma install_wf (program : list Z) (ses : Session) :
  wf (cpu ses) → Forall byte program → wf (cpu (fst (install program ses))).
Proof.
  intros Hwf Hp. unfold install.
  pose proof (loadProgram_wf program USER_PROGRAM_START_ADDRESS (cpu ses) Hwf Hp) as H.
  destruct (loadProgram _ _ _) as [c errs]. cbn [fst cpu] in *.
  apply set_pc_wf; [unfold USER_PROGRAM_START_ADDRESS; lia|exact H].
Qed.

(** X23.  The commands keep the machine well formed (registers and cells
    are bytes, PC is a 16-bit value, SP is within 0..256, the memory has
    65536 cells and the stack 256), and on a well-formed machine no command
    indexes the memory or the stack out of range, whatever value the
    character of READ_CHAR holds when the input has ended: the loop can
    only break at [compile], which takes [back()] of an empty token, and at
    [mem] without an argument, whose address is never assigned. *)
Theorem commands_keep_machine_well_formed
    (h : Host) (fuel : nat) (line : string) (ses : Session) (w : World) :
  wf (cpu ses) →
  (∀ ses' w' out, command h fuel line ses w = Next ses' w' out → wf (cpu ses')) ∧
  (∀ out, command h fuel line ses w = Broken out →
          fst (read EmptyString line) = "compile"%string ∨
          (fst (read EmptyString line) = "mem"%string ∧
           skip_space (snd (read EmptyString line)) = EmptyString)).
Proof.
  intros Hwf. unfold command. destruct (read EmptyString line) as [cmd ss].
  cbn [fst snd].
  destruct (String.eqb cmd "help"); [split; [by intros ??? [= <- _ _]|done]|].
  destruct (String.eqb cmd "load").
  { destruct (parseHexProgram ss) as [[program log]|] eqn:Hp; [|done].
    pose proof (parseHexProgram_bytes _ _ _ Hp) as Hb.
    case_bool_decide; [split; [by intros ??? [= <- _ _]|done]|].
    pose proof (install_wf program ses Hwf Hb) as Hi.
    destruct (install program ses) as [ses1 errs].
    split; [by intros ??? [= <- _ _]|done]. }
  destruct (String.eqb cmd "asm").
  { destruct (empty _); [split; [by intros ??? [= <- _ _]|done]|].
    pose proof (assemble_bytes (files h (fst (read EmptyString ss)))) as Hb.
    destruct (assemble _) as [program log]. cbn [fst] in Hb.
    case_bool_decide; [split; [by intros ??? [= <- _ _]|done]|].
    pose proof (install_wf program ses Hwf Hb) as Hi.
    destruct (install program ses) as [ses1 errs].
    split; [by intros ??? [= <- _ _]|done]. }
  destruct (String.eqb cmd "compile") eqn:Hc.
  { apply String.eqb_eq in Hc as ->. split; [|by left].
    destruct (empty _); [by intros ??? [= <- _ _]|].
    destruct (compile _ _) as [bytecode log|u] eqn:Hcomp; [|done].
    pose proof (compile_bytes _ _ _ _ Hcomp) as Hb.
    case_bool_decide; [by intros ??? [= <- _ _]|].
    pose proof (install_wf bytecode ses Hwf Hb) as Hi.
    destruct (install bytecode ses) as [ses1 errs].
    by intros ??? [= <- _ _]. }
  destruct (String.eqb cmd "run").
  { destruct (running ses); [|split; [by intros ??? [= <- _ _]|done]].
    destruct (run_wf fuel (cpu ses) w [] Hwf) as [Hu Hf].
    destruct (run fuel (cpu ses) w []) as [s1 w1 o1| |]; [|done|done].
    split; [|done]. intros ??? [= <- _ _]. exact (Hf _ _ _ eq_refl). }
  destruct (String.eqb cmd "step").
  { destruct (running ses); [|split; [by intros ??? [= <- _ _]|done]].
    destruct (step_wf (cpu ses) w Hwf) as (r & -> & Hr & _).
    destruct (continue r); (split; [by intros ??? [= <- _ _]|done]). }
  destruct (String.eqb cmd "dump"); [split; [by intros ??? [= <- _ _]|done]|].
  destruct (String.eqb cmd "mem") eqn:Hm.
  { apply String.eqb_eq in Hm as ->.
    destruct (get_hex_u16 ss) as [a|] eqn:Ha.
    2:{ split; [done|]. intros _ _. right. split; [done|].
        by apply get_hex_u16_None. }
    pose proof (get_hex_u16_range _ _ Ha) as Hr.
    destruct (decide _) as [Hlt|]; [|split; [by intros ??? [= <- _ _]|done]].
    destruct (vget_is_Some (memory (cpu ses)) a) as [v ->]; [lia|].
    split; [by intros ??? [= <- _ _]|done]. }
  destruct (String.eqb cmd "reset").
  { split; [|done]. intros ??? [= <- _ _]. cbn [cpu].
    apply set_B_wf; [done|]. apply set_A_wf; [done|].
    apply set_pc_wf; [lia|exact Hwf]. }
  destruct (String.eqb cmd "quit"); [done|].
  split; [by intros ??? [= <- _ _]|done].
Qed.

Lemma commands_keep_machine_well_formed_witness :
  (∀ ses' w' out,
      command bare_host 10 "run" (mkSession (boot echo_program) true)
              (mkWorld (keys "  x") 0)
      = Next ses' w' out → wf (cpu ses')) ∧
  (∀ out,
      command bare_host 10 "run" (mkSession (boot echo_program) true)
              (mkWorld (keys "  x") 0)
      = Broken out →
      fst (read EmptyString "run") = "compile"%string ∨
      (fst (read EmptyString "run") = "mem"%string ∧
       skip_space (snd (read EmptyString "run")) = EmptyString)).
Proof.
  apply (commands_keep_machine_well_formed bare_host 10 "run"
           (mkSession (boot echo_program) true) (mkWorld (keys "  x") 0)).
  apply boot_wf, byte_list. reflexivity.
Defined.
